(** * Pan-zoom stack groups

    A shallow embedding of [PlotPanZoomStackGroup] (stacked-plot mode of
    the plot view): a fixed collection of pan-zoom stacks which are kept
    synchronized on the domain axis and independent on the range axis.

    JavaScript objects with mutable state become explicit state: the
    closure variables [stacks] and [decoratedStacks] of a group are the
    two fields of the record [Group.group], every method takes the group
    state and returns the new one.  A call that can throw returns a
    [result]. *)

From Stdlib Require Import ZArith Lia.
From stdpp Require Import base list.

(** ** JavaScript values carried by the stacks *)

(** Origins and dimensions are arrays of numbers.  The code never computes
    with the numbers, it only moves them around, so a number is an opaque
    payload here.  Reading an array past its end yields [undefined]. *)
Inductive value : Type :=
| undefined
| number (x : Z).

Definition array : Type := list value.

(** [a[k]] *)
Definition array_get (a : array) (k : nat) : value :=
  match a !! k with
  | Some v => v
  | None => undefined
  end.

#[global] Instance value_eq_dec : EqDecision value.
Proof. solve_decision. Defined.

(** ** Completions: a call returns normally or throws *)

Inductive error : Type :=
| TypeError.

Inductive result (A : Type) : Type :=
| Ok (a : A)
| Throw (e : error).

Arguments Ok {A} a.
Arguments Throw {A} e.

#[global] Instance result_ret : MRet result := fun A a => Ok a.

#[global] Instance result_bind : MBind result := fun A B f m =>
  match m with
  | Ok a => f a
  | Throw e => Throw e
  end.

(** [l.forEach(function (x, i) {...})] where the callback replaces the
    state of the object [x] it is given, or throws.  [i] is the index of
    the first element of [l]. *)
Fixpoint forEach {A : Type} (f : A → nat → result A) (i : nat) (l : list A)
  : result (list A) :=
  match l with
  | [] => Ok []
  | x :: l' =>
      x' ← f x i;
      l'' ← forEach f (S i) l';
      Ok (x' :: l'')
  end.

(** ** A single pan-zoom stack *)

Module Stack.

(** One entry of a stack: [{ origin: ..., dimensions: ... }]. *)
Record PanZoomState : Type := mkState {
  origin : array;
  dimensions : array
}.

(** Modelled from the spec: the module [./PlotPanZoomStack] which the
    group imports.  A stack is an ordered sequence of states, index 0 is
    the base and the last index is the current (top) state. *)
Definition t : Type := list PanZoomState.

(** Modelled from the spec: the constructor of [./PlotPanZoomStack];
    [new PlotPanZoomStack(origin, dimensions)] is a stack holding the
    single base state [(origin, dimensions)]. *)
Definition PlotPanZoomStack (origin dimensions : array) : t :=
  [mkState origin dimensions].

(** Modelled from the spec: [getDepth] of [./PlotPanZoomStack], the
    current stack length. *)
Definition getDepth (stack : t) : nat := length stack.

(** Modelled from the spec: the top state of [./PlotPanZoomStack].  A
    stack without any state has no top to read a property from. *)
Definition getPanZoom (stack : t) : result PanZoomState :=
  match last stack with
  | Some s => Ok s
  | None => Throw TypeError
  end.

(** Modelled from the spec: [getOrigin] of [./PlotPanZoomStack], the
    origin of the top state. *)
Definition getOrigin (stack : t) : result array :=
  s ← getPanZoom stack; Ok (origin s).

(** Modelled from the spec: [getDimensions] of [./PlotPanZoomStack], the
    dimensions of the top state. *)
Definition getDimensions (stack : t) : result array :=
  s ← getPanZoom stack; Ok (dimensions s).

(** Modelled from the spec: [pushPanZoom] of [./PlotPanZoomStack],
    appends a new state as the new top; always succeeds. *)
Definition pushPanZoom (origin dimensions : array) (stack : t) : t :=
  stack ++ [mkState origin dimensions].

(** Modelled from the spec: [popPanZoom] of [./PlotPanZoomStack],
    removes the top state unless the depth is 1, in which case it does
    nothing. *)
Definition popPanZoom (stack : t) : t :=
  if getDepth stack =? 1 then stack else removelast stack.

(** Modelled from the spec: [setBasePanZoom] of [./PlotPanZoomStack],
    replaces the state at index 0 only. *)
Definition setBasePanZoom (origin dimensions : array) (stack : t) : t :=
  match stack with
  | [] => [mkState origin dimensions]
  | _ :: pushed => mkState origin dimensions :: pushed
  end.

(** Modelled from the spec: [clearPanZoom] of [./PlotPanZoomStack],
    truncates the stack back to just the base state (index 0). *)
Definition clearPanZoom (stack : t) : t := take 1 stack.

(** Modelled from the spec: "[popPanZoom] repeated until depth == 1", the loop
    [while (getDepth() !== 1) { popPanZoom(); }], with fuel. *)
Fixpoint popUntilBase (fuel : nat) (stack : t) : option t :=
  if getDepth stack =? 1 then Some stack
  else match fuel with
       | 0 => None
       | S fuel' => popUntilBase fuel' (popPanZoom stack)
       end.

End Stack.

(** ** The group *)

Module Group.

(** A decorated stack: [Object.create(stack)] plus the four overridden
    methods.  [proto] is the position in [stacks] of the stack the
    object delegates to, [index] the index captured by its
    [pushPanZoom]. *)
Record wrapper : Type := mkWrapper {
  proto : nat;
  index : nat
}.

(** The closure variables of one group. *)
Record group : Type := mkGroup {
  stacks : list Stack.t;
  decoratedStacks : list wrapper
}.

Definition with_stacks (g : group) (stacks' : list Stack.t) : group :=
  mkGroup stacks' (decoratedStacks g).

(** The callback of [pushPanZoom] for the stack at position [i]. *)
Definition pushPanZoom_each (origin dimensions : array) (index : nat)
    (stack : Stack.t) (i : nat) : result Stack.t :=
  if decide (i = index) then
    Ok (Stack.pushPanZoom origin dimensions stack)
  else
    o ← Stack.getOrigin stack;
    d ← Stack.getDimensions stack;
    Ok (Stack.pushPanZoom
          [array_get origin 0; array_get o 1]
          [array_get dimensions 0; array_get d 1]
          stack).

Definition pushPanZoom (origin dimensions : array) (index : nat) (g : group)
  : result group :=
  stacks' ← forEach (pushPanZoom_each origin dimensions index) 0 (stacks g);
  Ok (with_stacks g stacks').

Definition popPanZoom (g : group) : result group :=
  stacks' ← forEach (fun stack _ => Ok (Stack.popPanZoom stack)) 0 (stacks g);
  Ok (with_stacks g stacks').

Definition setBasePanZoom (origin dimensions : array) (g : group)
  : result group :=
  stacks' ← forEach
    (fun stack _ => Ok (Stack.setBasePanZoom origin dimensions stack))
    0 (stacks g);
  Ok (with_stacks g stacks').

Definition clearPanZoom (g : group) : result group :=
  stacks' ← forEach (fun stack _ => Ok (Stack.clearPanZoom stack)) 0 (stacks g);
  Ok (with_stacks g stacks').

(** [decorateStack(stack, index)]; the stack is given by its position. *)
Definition decorateStack (stack : nat) (index : nat) : wrapper :=
  mkWrapper stack index.

(** [while (stacks.length < count) { stacks.push(new PlotPanZoomStack([], [])); }] *)
Fixpoint createStacks (fuel : nat) (count : nat) (stacks : list Stack.t)
  : option (list Stack.t) :=
  if length stacks <? count then
    match fuel with
    | 0 => None
    | S fuel' =>
        createStacks fuel' count (stacks ++ [Stack.PlotPanZoomStack [] []])
    end
  else Some stacks.

(** The constructor.  The loop runs at most [count] times. *)
Definition PlotPanZoomStackGroup (count : nat) : group :=
  let stacks := default [] (createStacks count count []) in
  mkGroup stacks (imap (fun i _ => decorateStack i i) stacks).

(** Methods of the object the constructor returns. *)
Definition getDepth (g : group) : nat :=
  match stacks g with
  | stack0 :: _ => Stack.getDepth stack0
  | [] => 0
  end.

(** [decoratedStacks[index]]: an array read, [None] is [undefined]. *)
Definition getPanZoomStack (g : group) (index : Z) : result (option wrapper) :=
  Ok (if (0 <=? index)%Z then decoratedStacks g !! Z.to_nat index else None).

(** Methods of a decorated stack. The three inherited readers go through
    the prototype, the four mutators are the group's. *)
Definition the_stack (w : wrapper) (g : group) : result Stack.t :=
  match stacks g !! proto w with
  | Some stack => Ok stack
  | None => Throw TypeError
  end.

Definition w_getDepth (w : wrapper) (g : group) : result nat :=
  stack ← the_stack w g; Ok (Stack.getDepth stack).

Definition w_getOrigin (w : wrapper) (g : group) : result array :=
  stack ← the_stack w g; Stack.getOrigin stack.

Definition w_getDimensions (w : wrapper) (g : group) : result array :=
  stack ← the_stack w g; Stack.getDimensions stack.

Definition w_pushPanZoom (w : wrapper) (origin dimensions : array) (g : group)
  : result group :=
  pushPanZoom origin dimensions (index w) g.

Definition w_setBasePanZoom (w : wrapper) := setBasePanZoom.
Definition w_popPanZoom (w : wrapper) := popPanZoom.
Definition w_clearPanZoom (w : wrapper) := clearPanZoom.

End Group.

(** ** Clients: sequences of calls on a group and on its decorated stacks *)

Module Client.
Import Group.

(** What a view controller can do with a group: call one of the three
    mutators of the group object, or fetch the decorated stack
    [getPanZoomStack(index)] and call one of its four mutators. *)
Inductive call : Type :=
| GroupPop
| GroupSetBase (origin dimensions : array)
| GroupClear
| StackPush (index : Z) (origin dimensions : array)
| StackPop (index : Z)
| StackSetBase (index : Z) (origin dimensions : array)
| StackClear (index : Z).

(** [group.getPanZoomStack(index).method(...)]: calling a method of
    [undefined] throws. *)
Definition on_stack (index : Z) (method : wrapper → group → result group)
    (g : group) : result group :=
  w ← getPanZoomStack g index;
  match w with
  | Some w => method w g
  | None => Throw TypeError
  end.

Definition step (c : call) (g : group) : result group :=
  match c with
  | GroupPop => popPanZoom g
  | GroupSetBase origin dimensions => setBasePanZoom origin dimensions g
  | GroupClear => clearPanZoom g
  | StackPush index origin dimensions =>
      on_stack index (fun w => w_pushPanZoom w origin dimensions) g
  | StackPop index => on_stack index w_popPanZoom g
  | StackSetBase index origin dimensions =>
      on_stack index (fun w => w_setBasePanZoom w origin dimensions) g
  | StackClear index => on_stack index w_clearPanZoom g
  end.

Fixpoint run (calls : list call) (g : group) : result group :=
  match calls with
  | [] => Ok g
  | c :: calls' => g' ← step c g; run calls' g'
  end.

(** The index a call names, if any, is one of a group of [count] stacks. *)
Definition index_ok (count : nat) (index : Z) : bool :=
  ((0 <=? index) && (index <? Z.of_nat count))%Z.

Definition call_ok (count : nat) (c : call) : bool :=
  match c with
  | GroupPop | GroupSetBase _ _ | GroupClear => true
  | StackPush index _ _ | StackPop index
  | StackSetBase index _ _ | StackClear index => index_ok count index
  end.

End Client.

(** ** The state of a group that its clients can observe *)

Module Invariant.
Import Group.

(** Every stack holds [d] states. *)
Definition depths (d : nat) (g : group) : Prop :=
  Forall (fun stack => Stack.getDepth stack = d) (stacks g).

(** What the constructor establishes and every call keeps: [count]
    stacks, the decorated stack at position [i] delegates to stack [i]
    and pushes as [i], and all stacks have one common depth, at least 1. *)
Record inv (count : nat) (g : group) : Prop := mkInv {
  inv_count : length (stacks g) = count;
  inv_decorated :
    decoratedStacks g = (fun i => decorateStack i i) <$> seq 0 count;
  inv_depths : ∃ d, 1 ≤ d ∧ depths d g
}.

End Invariant.

(** ** Sample states *)

Module Sample.
Import Group Client.

(** A group of three after one push through stack 0. *)
Definition pushed_once : group :=
  Eval vm_compute in
    match run [StackPush 0 [number 1; number 2] [number 3; number 4]]
            (PlotPanZoomStackGroup 3) with
    | Ok g => g
    | Throw _ => PlotPanZoomStackGroup 3
    end.

(** A group of two after three pushes through either stack. *)
Definition pushed_thrice : group :=
  Eval vm_compute in
    match run [StackPush 0 [number 1; number 2] [number 3; number 4];
               StackPush 1 [number 5; number 6] [number 7; number 8];
               StackPush 0 [number 9; number 0] [number 1; number 1]]
            (PlotPanZoomStackGroup 2) with
    | Ok g => g
    | Throw _ => PlotPanZoomStackGroup 2
    end.

End Sample.

(** ** One stack of a group, seen on its own *)

Module View.
Import Group Client.

(** The domain-axis part of a state, [origin[0]] and [dimensions[0]], and
    its range-axis part, [origin[1]] and [dimensions[1]]. *)
Definition domain (s : Stack.PanZoomState) : value * value :=
  (array_get (Stack.origin s) 0, array_get (Stack.dimensions s) 0).

Definition range (s : Stack.PanZoomState) : value * value :=
  (array_get (Stack.origin s) 1, array_get (Stack.dimensions s) 1).

(** What one call does to the stack at position [j] of the group it is
    made on, read off the four callbacks of the group's methods. *)
Definition stack_after (c : call) (j : nat) (stack : Stack.t) : Stack.t :=
  match c with
  | GroupPop | StackPop _ => Stack.popPanZoom stack
  | GroupSetBase origin dimensions | StackSetBase _ origin dimensions =>
      Stack.setBasePanZoom origin dimensions stack
  | GroupClear | StackClear _ => Stack.clearPanZoom stack
  | StackPush index origin dimensions =>
      if decide (index = Z.of_nat j) then
        Stack.pushPanZoom origin dimensions stack
      else
        match Stack.getPanZoom stack with
        | Ok top =>
            Stack.pushPanZoom
              [array_get origin 0; array_get (Stack.origin top) 1]
              [array_get dimensions 0; array_get (Stack.dimensions top) 1]
              stack
        | Throw _ => stack
        end
  end.

Definition stack_after_all (calls : list call) (j : nat) (stack : Stack.t)
  : Stack.t :=
  fold_left (fun stack c => stack_after c j stack) calls stack.

(** The same calls made on a plain stack, which has no index. *)
Definition plain_after (c : call) (stack : Stack.t) : Stack.t :=
  match c with
  | GroupPop | StackPop _ => Stack.popPanZoom stack
  | GroupSetBase origin dimensions | StackSetBase _ origin dimensions =>
      Stack.setBasePanZoom origin dimensions stack
  | GroupClear | StackClear _ => Stack.clearPanZoom stack
  | StackPush _ origin dimensions => Stack.pushPanZoom origin dimensions stack
  end.

Definition plain_after_all (calls : list call) (stack : Stack.t) : Stack.t :=
  fold_left (fun stack c => plain_after c stack) calls stack.

(** The depth a sequence of calls leaves, counted from the calls alone. *)
Definition depth_after (c : call) (d : nat) : nat :=
  match c with
  | StackPush _ _ _ => S d
  | GroupPop | StackPop _ => if d =? 1 then d else d - 1
  | GroupSetBase _ _ | StackSetBase _ _ _ => d
  | GroupClear | StackClear _ => 1
  end.

Definition depth_after_all (calls : list call) : nat :=
  fold_left (fun d c => depth_after c d) calls 1.

(** The base state a sequence of calls leaves: that of the last
    [setBasePanZoom], or the one the constructor gave. *)
Definition base_after (c : call) (base : Stack.PanZoomState)
  : Stack.PanZoomState :=
  match c with
  | GroupSetBase origin dimensions | StackSetBase _ origin dimensions =>
      Stack.mkState origin dimensions
  | _ => base
  end.

Definition base_after_all (calls : list call) : Stack.PanZoomState :=
  fold_left (fun base c => base_after c base) calls (Stack.mkState [] []).

(** Kinds of calls. *)
Definition is_push (count : nat) (c : call) : bool :=
  match c with
  | StackPush index _ _ => index_ok count index
  | _ => false
  end.

Definition is_push_elsewhere (count j : nat) (c : call) : bool :=
  match c with
  | StackPush index _ _ =>
      index_ok count index && negb (index =? Z.of_nat j)%Z
  | _ => false
  end.

Definition pushes_only_through (j : nat) (c : call) : bool :=
  match c with
  | StackPush index _ _ => (index =? Z.of_nat j)%Z
  | _ => true
  end.

End View.

(** ** Iteration *)

Section forEach_facts.
Context {A : Type}.
Implicit Types (f : A → nat → result A) (l : list A).

Lemma forEach_Ok f l : ∀ i l',
  forEach f i l = Ok l' →
  length l' = length l ∧
  ∀ j x, l !! j = Some x → ∃ x', l' !! j = Some x' ∧ f x (i + j) = Ok x'.
Proof.
  induction l as [|x l IH]; intros i l' H; simpl in H.
  - inversion H; subst. split; [done|]. intros j y Hj. done.
  - destruct (f x i) as [x'|e] eqn:Hx; simpl in H; [|done].
    destruct (forEach f (S i) l) as [l''|e] eqn:Hl; simpl in H; [|done].
    inversion H; subst. destruct (IH _ _ Hl) as [Hlen Hat].
    split; [simpl; by rewrite Hlen|].
    intros [|j] y Hj; simpl in *.
    + inversion Hj; subst. exists x'. by rewrite Nat.add_0_r.
    + destruct (Hat j y Hj) as (y' & ? & Hy). exists y'.
      split; [done|]. by rewrite Nat.add_succ_r.
Qed.

Lemma forEach_total f l : ∀ i,
  (∀ j x, l !! j = Some x → ∃ x', f x (i + j) = Ok x') →
  ∃ l', forEach f i l = Ok l'.
Proof.
  induction l as [|x l IH]; intros i H; simpl.
  - by eexists.
  - destruct (H 0 x eq_refl) as [x' Hx]. rewrite Nat.add_0_r in Hx.
    rewrite Hx; simpl.
    destruct (IH (S i)) as [l' Hl'].
    { intros j y Hj. destruct (H (S j) y Hj) as [y' Hy].
      exists y'. by rewrite Nat.add_succ_r in Hy. }
    rewrite Hl'; simpl. by eexists.
Qed.

Lemma forEach_pure (h : A → A) l : ∀ i,
  forEach (fun x _ => Ok (h x)) i l = Ok (h <$> l).
Proof.
  induction l as [|x l IH]; intros i; simpl; [done|].
  by rewrite IH.
Qed.
End forEach_facts.

(** ** Facts about one stack *)

Section stack_facts.
Import Stack.
Implicit Types (stack : Stack.t) (origin dimensions : array).

Lemma getDepth_PlotPanZoomStack origin dimensions :
  getDepth (PlotPanZoomStack origin dimensions) = 1.
Proof. reflexivity. Qed.

Lemma getDepth_pushPanZoom origin dimensions stack :
  getDepth (pushPanZoom origin dimensions stack) = S (getDepth stack).
Proof. unfold getDepth, pushPanZoom. rewrite length_app. simpl. lia. Qed.

Lemma popPanZoom_take stack :
  popPanZoom stack =
  if getDepth stack =? 1 then stack else take (getDepth stack - 1) stack.
Proof.
  unfold popPanZoom. destruct (getDepth stack =? 1); [done|].
  rewrite removelast_firstn_len. unfold getDepth.
  by replace (length stack - 1) with (Nat.pred (length stack)) by lia.
Qed.

Lemma getDepth_popPanZoom stack :
  getDepth (popPanZoom stack) =
  if getDepth stack =? 1 then 1 else getDepth stack - 1.
Proof.
  rewrite popPanZoom_take.
  destruct (getDepth stack =? 1) eqn:E.
  - by apply Nat.eqb_eq in E.
  - unfold getDepth. rewrite length_take. lia.
Qed.

Lemma popPanZoom_pushPanZoom origin dimensions stack :
  1 ≤ getDepth stack →
  popPanZoom (pushPanZoom origin dimensions stack) = stack.
Proof.
  intros H. unfold popPanZoom. rewrite getDepth_pushPanZoom.
  destruct (S (getDepth stack) =? 1) eqn:E.
  - apply Nat.eqb_eq in E. lia.
  - unfold pushPanZoom. apply removelast_last.
Qed.

Lemma getDepth_setBasePanZoom origin dimensions stack :
  1 ≤ getDepth stack →
  getDepth (setBasePanZoom origin dimensions stack) = getDepth stack.
Proof. destruct stack; simpl; [lia|done]. Qed.

Lemma getDepth_clearPanZoom stack :
  1 ≤ getDepth stack → getDepth (clearPanZoom stack) = 1.
Proof. destruct stack; simpl; [lia|done]. Qed.

Lemma getPanZoom_pushPanZoom origin dimensions stack :
  getPanZoom (pushPanZoom origin dimensions stack) =
  Ok (mkState origin dimensions).
Proof. unfold getPanZoom, pushPanZoom. by rewrite last_snoc. Qed.

Lemma getPanZoom_Ok stack :
  1 ≤ getDepth stack → ∃ top, getPanZoom stack = Ok top.
Proof.
  unfold getPanZoom, getDepth. intros H.
  destruct (last stack) as [top|] eqn:E; [by eexists|].
  apply last_None in E. subst. simpl in H. lia.
Qed.

Lemma popUntilBase_clearPanZoom fuel : ∀ stack,
  1 ≤ getDepth stack → getDepth stack ≤ S fuel →
  popUntilBase fuel stack = Some (clearPanZoom stack).
Proof.
  induction fuel as [|fuel IH]; intros stack H1 H2.
  - assert (getDepth stack = 1) as E by lia.
    simpl. rewrite E. simpl. f_equal.
    unfold clearPanZoom. symmetry. apply take_ge. unfold getDepth in E. lia.
  - simpl. destruct (getDepth stack =? 1) eqn:E.
    + apply Nat.eqb_eq in E. f_equal.
      unfold clearPanZoom. symmetry. apply take_ge. unfold getDepth in E. lia.
    + apply Nat.eqb_neq in E.
      rewrite IH.
      * f_equal. rewrite popPanZoom_take.
        destruct (getDepth stack =? 1) eqn:E'; [done|].
        unfold clearPanZoom. rewrite take_take. f_equal. lia.
      * rewrite getDepth_popPanZoom.
        destruct (getDepth stack =? 1); lia.
      * rewrite getDepth_popPanZoom.
        destruct (getDepth stack =? 1); lia.
Qed.
End stack_facts.

(** ** Facts about the group's methods *)

Section group_facts.
Import Group Invariant.
Implicit Types (g : group) (origin dimensions : array).

Lemma createStacks_Some fuel : ∀ count l,
  count ≤ fuel + length l →
  createStacks fuel count l =
  Some (l ++ replicate (count - length l) (Stack.PlotPanZoomStack [] [])).
Proof.
  induction fuel as [|fuel IH]; intros count l H; simpl.
  - assert ((length l <? count) = false) as -> by (apply Nat.ltb_ge; lia).
    replace (count - length l) with 0 by lia. simpl. by rewrite app_nil_r.
  - destruct (length l <? count) eqn:E.
    + apply Nat.ltb_lt in E. rewrite IH; rewrite length_app; simpl; [|lia].
      f_equal. rewrite <- app_assoc. f_equal.
      replace (count - length l) with (S (count - (length l + 1))) by lia.
      done.
    + apply Nat.ltb_ge in E.
      replace (count - length l) with 0 by lia. simpl. by rewrite app_nil_r.
Qed.

Lemma stacks_PlotPanZoomStackGroup count :
  stacks (PlotPanZoomStackGroup count) =
  replicate count (Stack.PlotPanZoomStack [] []).
Proof.
  unfold PlotPanZoomStackGroup. rewrite createStacks_Some; simpl; [|lia].
  by rewrite Nat.sub_0_r.
Qed.

Lemma imap_index {A B : Type} (h : nat → B) (l : list A) : ∀ n,
  imap (fun i _ => h (n + i)) l = h <$> seq n (length l).
Proof.
  induction l as [|x l IH]; intros n; simpl; [done|].
  rewrite Nat.add_0_r. f_equal. rewrite <- IH.
  apply imap_ext. intros i y _. simpl. f_equal. lia.
Qed.

Lemma decoratedStacks_PlotPanZoomStackGroup count :
  decoratedStacks (PlotPanZoomStackGroup count) =
  (fun i => decorateStack i i) <$> seq 0 count.
Proof.
  unfold PlotPanZoomStackGroup. rewrite createStacks_Some; simpl; [|lia].
  rewrite Nat.sub_0_r.
  rewrite (imap_index (fun i => decorateStack i i) _ 0).
  by rewrite length_replicate.
Qed.

Lemma inv_PlotPanZoomStackGroup count : inv count (PlotPanZoomStackGroup count).
Proof.
  split.
  - by rewrite stacks_PlotPanZoomStackGroup, length_replicate.
  - apply decoratedStacks_PlotPanZoomStackGroup.
  - exists 1. split; [done|]. unfold depths.
    rewrite stacks_PlotPanZoomStackGroup. by apply Forall_replicate.
Qed.

Lemma popPanZoom_map g :
  popPanZoom g = Ok (with_stacks g (Stack.popPanZoom <$> stacks g)).
Proof. unfold popPanZoom. by rewrite forEach_pure. Qed.

Lemma setBasePanZoom_map origin dimensions g :
  setBasePanZoom origin dimensions g =
  Ok (with_stacks g (Stack.setBasePanZoom origin dimensions <$> stacks g)).
Proof. unfold setBasePanZoom. by rewrite forEach_pure. Qed.

Lemma clearPanZoom_map g :
  clearPanZoom g = Ok (with_stacks g (Stack.clearPanZoom <$> stacks g)).
Proof. unfold clearPanZoom. by rewrite forEach_pure. Qed.

(** What the callback of [pushPanZoom] does to a stack that has a top. *)
Lemma pushPanZoom_each_Ok origin dimensions index stack i :
  1 ≤ Stack.getDepth stack →
  ∃ top, Stack.getPanZoom stack = Ok top ∧
    pushPanZoom_each origin dimensions index stack i =
    Ok (if decide (i = index)
        then Stack.pushPanZoom origin dimensions stack
        else Stack.pushPanZoom
               [array_get origin 0; array_get (Stack.origin top) 1]
               [array_get dimensions 0; array_get (Stack.dimensions top) 1]
               stack).
Proof.
  intros H. destruct (getPanZoom_Ok stack H) as [top Htop].
  exists top. split; [done|].
  unfold pushPanZoom_each, Stack.getOrigin, Stack.getDimensions.
  destruct (decide (i = index)); [done|]. by rewrite Htop.
Qed.

Lemma pushPanZoom_Ok origin dimensions index g d :
  1 ≤ d → depths d g →
  ∃ g', pushPanZoom origin dimensions index g = Ok g' ∧
    decoratedStacks g' = decoratedStacks g ∧
    length (stacks g') = length (stacks g) ∧
    depths (S d) g' ∧
    ∀ j stack, stacks g !! j = Some stack →
      ∃ stack', stacks g' !! j = Some stack' ∧
        pushPanZoom_each origin dimensions index stack j = Ok stack'.
Proof.
  intros Hd Hg. unfold pushPanZoom.
  destruct (forEach_total (pushPanZoom_each origin dimensions index)
              (stacks g) 0) as [l' Hl'].
  { intros j stack Hj.
    destruct (pushPanZoom_each_Ok origin dimensions index stack (0 + j))
      as (top & _ & ->); [|by eexists].
    unfold depths in Hg. rewrite Forall_lookup in Hg.
    rewrite (Hg j stack Hj). done. }
  rewrite Hl'. simpl. eexists. split; [done|].
  destruct (forEach_Ok _ _ _ _ Hl') as [Hlen Hat]. simpl.
  split; [done|]. split; [done|]. split; [|exact Hat].
  unfold depths. simpl. apply Forall_lookup. intros j stack' Hj.
  destruct (stacks g !! j) as [stack|] eqn:Hs.
  - destruct (Hat j stack Hs) as (stack'' & Hj' & Hpush).
    rewrite Hj in Hj'. inversion Hj'; subst stack''.
    unfold depths in Hg. rewrite Forall_lookup in Hg.
    pose proof (Hg j stack Hs) as Hdj.
    destruct (pushPanZoom_each_Ok origin dimensions index stack (0 + j))
      as (top & _ & Heq); [lia|].
    rewrite Heq in Hpush. injection Hpush as <-.
    simpl. destruct (decide (j = index)); rewrite getDepth_pushPanZoom; lia.
  - apply lookup_ge_None in Hs. apply lookup_lt_Some in Hj. lia.
Qed.
End group_facts.

(** ** The invariant is kept by every call *)

Section invariant_facts.
Import Group Invariant Client.
Implicit Types (g : group) (origin dimensions : array) (index : Z).

Lemma depths_lookup d g j stack :
  depths d g → stacks g !! j = Some stack → Stack.getDepth stack = d.
Proof. unfold depths. rewrite Forall_lookup. eauto. Qed.

Lemma depths_fmap (h : Stack.t → Stack.t) d d' g :
  (∀ stack, Stack.getDepth stack = d → Stack.getDepth (h stack) = d') →
  depths d g → depths d' (with_stacks g (h <$> stacks g)).
Proof.
  unfold depths. simpl. intros Hh Hg.
  apply Forall_fmap. eapply Forall_impl; [exact Hg|]. exact Hh.
Qed.

Lemma getPanZoomStack_in count g (i : nat) :
  inv count g → i < count →
  getPanZoomStack g (Z.of_nat i) = Ok (Some (decorateStack i i)).
Proof.
  intros [_ Hdec _] Hi. unfold getPanZoomStack.
  assert ((0 <=? Z.of_nat i)%Z = true) as -> by (apply Z.leb_le; lia).
  rewrite Nat2Z.id, Hdec, list_lookup_fmap, lookup_seq_lt; [done|lia].
Qed.

Lemma getPanZoomStack_out count g index :
  inv count g → index_ok count index = false →
  getPanZoomStack g index = Ok None.
Proof.
  intros [_ Hdec _] Hi. unfold getPanZoomStack, index_ok in *.
  destruct (0 <=? index)%Z eqn:E; [|done]. simpl in Hi.
  apply Z.leb_le in E. apply Z.ltb_ge in Hi.
  rewrite Hdec, list_lookup_fmap, lookup_seq_ge; [done|lia].
Qed.

Lemma index_ok_nat count index :
  index_ok count index = true →
  ∃ i : nat, index = Z.of_nat i ∧ i < count.
Proof.
  unfold index_ok. intros H. apply andb_true_iff in H as [H1 H2].
  apply Z.leb_le in H1. apply Z.ltb_lt in H2.
  exists (Z.to_nat index). lia.
Qed.

Lemma getPanZoomStack_Some count g index w :
  inv count g → getPanZoomStack g index = Ok (Some w) →
  ∃ i : nat, index = Z.of_nat i ∧ i < count ∧ w = decorateStack i i.
Proof.
  intros Hinv H. destruct (index_ok count index) eqn:E.
  - destruct (index_ok_nat _ _ E) as (i & -> & Hi).
    rewrite (getPanZoomStack_in count g i Hinv Hi) in H.
    exists i. by inversion H.
  - rewrite (getPanZoomStack_out count g index Hinv E) in H. done.
Qed.

Lemma inv_popPanZoom count g g' :
  inv count g → popPanZoom g = Ok g' → inv count g'.
Proof.
  intros [Hc Hdec (d & Hd & Hg)]. rewrite popPanZoom_map. intros [= <-].
  split; simpl; [by rewrite length_fmap|done|].
  exists (if d =? 1 then 1 else d - 1). split.
  - destruct (d =? 1) eqn:E; [done|]. apply Nat.eqb_neq in E. lia.
  - apply (depths_fmap _ d); [|done].
    intros stack <-. apply getDepth_popPanZoom.
Qed.

Lemma inv_setBasePanZoom count origin dimensions g g' :
  inv count g → setBasePanZoom origin dimensions g = Ok g' → inv count g'.
Proof.
  intros [Hc Hdec (d & Hd & Hg)]. rewrite setBasePanZoom_map. intros [= <-].
  split; simpl; [by rewrite length_fmap|done|].
  exists d. split; [done|]. apply (depths_fmap _ d); [|done].
  intros stack <-. by apply getDepth_setBasePanZoom.
Qed.

Lemma inv_clearPanZoom count g g' :
  inv count g → clearPanZoom g = Ok g' → inv count g'.
Proof.
  intros [Hc Hdec (d & Hd & Hg)]. rewrite clearPanZoom_map. intros [= <-].
  split; simpl; [by rewrite length_fmap|done|].
  exists 1. split; [done|]. apply (depths_fmap _ d); [|done].
  intros stack <-. by apply getDepth_clearPanZoom.
Qed.

Lemma inv_pushPanZoom count origin dimensions i g g' :
  inv count g → pushPanZoom origin dimensions i g = Ok g' → inv count g'.
Proof.
  intros [Hc Hdec (d & Hd & Hg)] H.
  destruct (pushPanZoom_Ok origin dimensions i g d Hd Hg)
    as (g'' & Heq & Hdec' & Hlen & Hdepth & _).
  rewrite Heq in H. injection H as <-.
  split; [by rewrite Hlen|by rewrite Hdec'|].
  exists (S d). split; [lia|done].
Qed.

Lemma on_stack_Ok index method g g' :
  on_stack index method g = Ok g' →
  ∃ w, getPanZoomStack g index = Ok (Some w) ∧ method w g = Ok g'.
Proof.
  unfold on_stack.
  destruct (getPanZoomStack g index) as [[w|]|e] eqn:E; simpl; try done.
  intros H. by exists w.
Qed.

Lemma inv_step count c g g' : inv count g → step c g = Ok g' → inv count g'.
Proof.
  intros Hinv.
  destruct c; simpl; intros H;
    try (apply on_stack_Ok in H as (w & _ & H));
    eauto using inv_popPanZoom, inv_setBasePanZoom, inv_clearPanZoom,
      inv_pushPanZoom.
Qed.

Lemma inv_run calls : ∀ count g g',
  inv count g → run calls g = Ok g' → inv count g'.
Proof.
  induction calls as [|c calls IH]; intros count g g' Hinv H; simpl in H.
  - by injection H as <-.
  - destruct (step c g) as [g1|e] eqn:E; simpl in H; [|done].
    eapply IH; [|exact H]. eapply inv_step; eauto.
Qed.

(** Every state a client can bring a group of [count] stacks to. *)
Lemma inv_reachable count calls g :
  run calls (PlotPanZoomStackGroup count) = Ok g → inv count g.
Proof. apply inv_run, inv_PlotPanZoomStackGroup. Qed.

Lemma step_total count c g :
  inv count g → call_ok count c = true → ∃ g', step c g = Ok g'.
Proof.
  intros Hinv Hc.
  assert (∀ index method, index_ok count index = true →
            (∀ w, ∃ g', method w g = Ok g') →
            ∃ g', on_stack index method g = Ok g') as Hon.
  { intros index method Hi Hm. unfold on_stack.
    destruct (index_ok_nat _ _ Hi) as (i & -> & Hlt).
    rewrite (getPanZoomStack_in count g i Hinv Hlt). simpl. apply Hm. }
  destruct Hinv as [_ _ (d & Hd & Hg)].
  destruct c; simpl in *; try apply Hon; try done; try intros w;
    unfold w_popPanZoom, w_setBasePanZoom, w_clearPanZoom, w_pushPanZoom;
    rewrite ?popPanZoom_map, ?setBasePanZoom_map, ?clearPanZoom_map;
    try (by eexists).
  destruct (pushPanZoom_Ok origin dimensions (Group.index w) g d Hd Hg)
    as (g' & Heq & _). by exists g'.
Qed.

(** A sequence of calls which names existing stacks only never throws. *)
Lemma run_total calls : ∀ count g,
  inv count g → forallb (call_ok count) calls = true →
  ∃ g', run calls g = Ok g'.
Proof.
  induction calls as [|c calls IH]; intros count g Hinv H; simpl in *.
  - by eexists.
  - apply andb_true_iff in H as [Hc Hcs].
    destruct (step_total count c g Hinv Hc) as [g1 Hg1].
    rewrite Hg1. simpl. apply (IH count); [|done].
    eapply inv_step; eauto.
Qed.
End invariant_facts.

(** ** Reading through a decorated stack *)

Section wrapper_facts.
Import Group Invariant Client.
Implicit Types (g : group) (origin dimensions : array).

Lemma lookup_stack count g i :
  inv count g → i < count → ∃ stack, stacks g !! i = Some stack.
Proof.
  intros [Hc _ _] Hi. apply lookup_lt_is_Some_2. by rewrite Hc.
Qed.

Lemma w_getDepth_decorateStack g i stack :
  stacks g !! i = Some stack →
  w_getDepth (decorateStack i i) g = Ok (Stack.getDepth stack).
Proof. unfold w_getDepth, the_stack. simpl. by intros ->. Qed.

Lemma w_getOrigin_decorateStack g i stack :
  stacks g !! i = Some stack →
  w_getOrigin (decorateStack i i) g = Stack.getOrigin stack.
Proof. unfold w_getOrigin, the_stack. simpl. by intros ->. Qed.

Lemma w_getDimensions_decorateStack g i stack :
  stacks g !! i = Some stack →
  w_getDimensions (decorateStack i i) g = Stack.getDimensions stack.
Proof. unfold w_getDimensions, the_stack. simpl. by intros ->. Qed.

Lemma getDepth_depths d g stack0 j :
  depths d g → stacks g !! j = Some stack0 → getDepth g = d.
Proof.
  intros Hg Hj. unfold getDepth.
  destruct (stacks g) as [|stack l] eqn:E; [done|].
  apply (depths_lookup d g 0 stack Hg). by rewrite E.
Qed.
End wrapper_facts.

(** ** The synchronization rule of [pushPanZoom] *)

Section push_claims.
Import Group Invariant Client.

(** Test property 3 of the specification, run on the model: in a group
    of two whose stack 1 has the range bounds (7, 2) on top, pushing
    ([5,10], [1,1]) through stack 0 gives stack 1 the domain bounds
    (5, 1) and leaves its range bounds (7, 2). *)
Example domain_synchronization :
  let calls :=
    [StackPush 1 [number 0; number 7] [number 3; number 2];
     StackPush 0 [number 5; number 10] [number 1; number 1]] in
  ∃ g, run calls (PlotPanZoomStackGroup 2) = Ok g ∧
    w_getOrigin (decorateStack 0 0) g = Ok [number 5; number 10] ∧
    w_getDimensions (decorateStack 0 0) g = Ok [number 1; number 1] ∧
    w_getOrigin (decorateStack 1 1) g = Ok [number 5; number 7] ∧
    w_getDimensions (decorateStack 1 1) g = Ok [number 1; number 2] ∧
    getDepth g = 3.
Proof. eexists. repeat split; reflexivity. Qed.

(** C1. In a group of [count] stacks, in any state its clients can bring
    it to, [pushPanZoom(origin, dimensions)] on the decorated stack
    [i < count] returns normally; stack [i] gets exactly
    [(origin, dimensions)] as its new top, and every other stack [j]
    gets a new top whose domain components are [origin[0]] and
    [dimensions[0]] and whose range components are those of the top
    stack [j] had before the call. *)
Theorem pushPanZoom_synchronizes_domain
    count calls g (i : nat) origin dimensions :
  run calls (PlotPanZoomStackGroup count) = Ok g →
  i < count →
  ∃ w g',
    getPanZoomStack g (Z.of_nat i) = Ok (Some w) ∧
    w_pushPanZoom w origin dimensions g = Ok g' ∧
    length (stacks g') = length (stacks g) ∧
    ∀ j stack, stacks g !! j = Some stack →
      ∃ top stack',
        Stack.getPanZoom stack = Ok top ∧
        stacks g' !! j = Some stack' ∧
        if decide (j = i) then
          stack' = Stack.pushPanZoom origin dimensions stack ∧
          Stack.getPanZoom stack' = Ok (Stack.mkState origin dimensions)
        else
          ∃ top',
            stack' = Stack.pushPanZoom
                       (Stack.origin top') (Stack.dimensions top') stack ∧
            Stack.getPanZoom stack' = Ok top' ∧
            array_get (Stack.origin top') 0 = array_get origin 0 ∧
            array_get (Stack.dimensions top') 0 = array_get dimensions 0 ∧
            array_get (Stack.origin top') 1 = array_get (Stack.origin top) 1 ∧
            array_get (Stack.dimensions top') 1 =
              array_get (Stack.dimensions top) 1.
Proof.
  intros Hrun Hi. pose proof (inv_reachable _ _ _ Hrun) as Hinv.
  exists (decorateStack i i).
  destruct Hinv as [Hc Hdec (d & Hd & Hg)].
  destruct (pushPanZoom_Ok origin dimensions i g d Hd Hg)
    as (g' & Heq & _ & Hlen & _ & Hat).
  exists g'. split; [|split; [exact Heq|split; [exact Hlen|]]].
  { apply (getPanZoomStack_in count); [by split; eauto|done]. }
  intros j stack Hj.
  destruct (Hat j stack Hj) as (stack' & Hj' & Hpush).
  destruct (pushPanZoom_each_Ok origin dimensions i stack j)
    as (top & Htop & Heach).
  { rewrite (depths_lookup d g j stack Hg Hj). done. }
  exists top, stack'. split; [done|]. split; [done|].
  rewrite Heach in Hpush.
  destruct (decide (j = i)); injection Hpush as <-.
  - split; [done|]. apply getPanZoom_pushPanZoom.
  - eexists (Stack.mkState _ _). simpl.
    split; [reflexivity|]. split; [apply getPanZoom_pushPanZoom|done].
Qed.

Lemma pushPanZoom_synchronizes_domain_witness :
  ∃ w g',
    getPanZoomStack (PlotPanZoomStackGroup 2) 0%Z = Ok (Some w) ∧
    w_pushPanZoom w [number 5; number 10] [number 1; number 1]
      (PlotPanZoomStackGroup 2) = Ok g' ∧
    length (stacks g') = 2.
Proof.
  destruct (pushPanZoom_synchronizes_domain 2 [] (PlotPanZoomStackGroup 2) 0
              [number 5; number 10] [number 1; number 1])
    as (w & g' & H1 & H2 & H3 & _); [reflexivity|lia|].
  exists w, g'. split; [exact H1|]. split; [exact H2|exact H3].
Defined.

(** C2. In every state its clients can bring a group to, all stacks have
    one common depth, which every decorated stack reports from
    [getDepth()]; and [pushPanZoom] through any decorated stack returns
    normally and increases the depth of every stack by exactly one. *)
Theorem stacks_equal_depth count calls g :
  run calls (PlotPanZoomStackGroup count) = Ok g →
  (∃ d, depths d g ∧
     ∀ i, i < count →
       ∃ w, getPanZoomStack g (Z.of_nat i) = Ok (Some w) ∧
            w_getDepth w g = Ok d) ∧
  ∀ i origin dimensions, i < count →
    ∃ w g',
      getPanZoomStack g (Z.of_nat i) = Ok (Some w) ∧
      w_pushPanZoom w origin dimensions g = Ok g' ∧
      length (stacks g') = length (stacks g) ∧
      ∀ j stack, stacks g !! j = Some stack →
        ∃ stack', stacks g' !! j = Some stack' ∧
          Stack.getDepth stack' = S (Stack.getDepth stack).
Proof.
  intros Hrun. pose proof (inv_reachable _ _ _ Hrun) as Hinv.
  pose proof Hinv as [Hc Hdec (d & Hd & Hg)]. split.
  - exists d. split; [done|]. intros i Hi.
    exists (decorateStack i i). split; [by apply (getPanZoomStack_in count)|].
    destruct (lookup_stack count g i Hinv Hi) as [stack Hs].
    rewrite (w_getDepth_decorateStack g i stack Hs).
    by rewrite (depths_lookup d g i stack Hg Hs).
  - intros i origin dimensions Hi.
    exists (decorateStack i i).
    destruct (pushPanZoom_Ok origin dimensions i g d Hd Hg)
      as (g' & Heq & _ & Hlen & Hg' & Hat).
    exists g'. split; [by apply (getPanZoomStack_in count)|].
    split; [exact Heq|]. split; [exact Hlen|].
    intros j stack Hj. destruct (Hat j stack Hj) as (stack' & Hj' & _).
    exists stack'. split; [done|].
    rewrite (depths_lookup (S d) g' j stack' Hg' Hj').
    by rewrite (depths_lookup d g j stack Hg Hj).
Qed.

Lemma stacks_equal_depth_witness :
  ∃ d, depths d Sample.pushed_thrice ∧
    ∀ i, i < 2 →
      ∃ w, getPanZoomStack Sample.pushed_thrice (Z.of_nat i) = Ok (Some w) ∧
           w_getDepth w Sample.pushed_thrice = Ok d.
Proof.
  exact (proj1 (stacks_equal_depth 2
                  [StackPush 0 [number 1; number 2] [number 3; number 4];
                   StackPush 1 [number 5; number 6] [number 7; number 8];
                   StackPush 0 [number 9; number 0] [number 1; number 1]]
                  Sample.pushed_thrice eq_refl)).
Defined.
End push_claims.

(** ** Popping, and the floor of one state *)

Section pop_claims.
Import Group Invariant Client.

Lemma getDepth_iter_popPanZoom n : ∀ stack,
  1 ≤ Stack.getDepth stack →
  1 ≤ Stack.getDepth (Nat.iter n Stack.popPanZoom stack).
Proof.
  induction n as [|n IH]; intros stack H; simpl; [done|].
  rewrite getDepth_popPanZoom.
  destruct (Stack.getDepth (Nat.iter n Stack.popPanZoom stack) =? 1) eqn:E;
    [done|].
  apply Nat.eqb_neq in E. specialize (IH stack H). lia.
Qed.

Lemma popPanZoom_at_base stack :
  Stack.getDepth stack = 1 → Stack.popPanZoom stack = stack.
Proof. unfold Stack.popPanZoom. by intros ->. Qed.

Lemma popPanZoom_depths_1 g : depths 1 g → popPanZoom g = Ok g.
Proof.
  intros Hg. rewrite popPanZoom_map. destruct g as [l ws].
  unfold with_stacks, depths in *. simpl in *. f_equal. f_equal.
  induction Hg as [|stack l Hs _ IH]; [done|].
  rewrite fmap_cons. f_equal; [by apply popPanZoom_at_base|exact IH].
Qed.

(** C3. A stack which holds at least one state still holds at least one
    after any number [n] of [popPanZoom] calls; one [popPanZoom] leaves
    a stack of depth 1 as it is (and takes exactly one state off a
    deeper one); and [popPanZoom] on a group all of whose stacks are at
    depth 1 returns normally and leaves the whole group as it is. *)
Theorem popPanZoom_floor (stack : Stack.t) (n : nat) (g : group) :
  1 ≤ Stack.getDepth stack →
  depths 1 g →
  1 ≤ Stack.getDepth (Nat.iter n Stack.popPanZoom stack) ∧
  (if Stack.getDepth stack =? 1
   then Stack.popPanZoom stack = stack
   else Stack.getDepth (Stack.popPanZoom stack) = Stack.getDepth stack - 1) ∧
  popPanZoom g = Ok g ∧
  (∀ w, w_popPanZoom w g = Ok g).
Proof.
  intros Hs Hg. split; [by apply getDepth_iter_popPanZoom|].
  split.
  - destruct (Stack.getDepth stack =? 1) eqn:E.
    + apply popPanZoom_at_base. by apply Nat.eqb_eq.
    + rewrite getDepth_popPanZoom. by rewrite E.
  - split; [|intros w]; by apply popPanZoom_depths_1.
Qed.

Lemma popPanZoom_floor_witness :
  1 ≤ Stack.getDepth
        (Nat.iter 5 Stack.popPanZoom
           (Stack.pushPanZoom [number 1; number 2] [number 3; number 4]
              (Stack.PlotPanZoomStack [] []))) ∧
  popPanZoom (PlotPanZoomStackGroup 2) = Ok (PlotPanZoomStackGroup 2).
Proof.
  destruct (popPanZoom_floor
              (Stack.pushPanZoom [number 1; number 2] [number 3; number 4]
                 (Stack.PlotPanZoomStack [] []))
              5 (PlotPanZoomStackGroup 2))
    as (H1 & _ & H2 & _).
  - vm_compute. lia.
  - vm_compute. repeat constructor.
  - split; [exact H1|exact H2].
Defined.

(** Test property 5 of the specification, run on the model: a group of
    three, two pushes through stack 0, then one pop through stack 2. *)
Example group_wide_pop :
  let pushes :=
    [StackPush 0 [number 1; number 2] [number 3; number 4];
     StackPush 0 [number 5; number 6] [number 7; number 8]] in
  ∃ g2 g1,
    run pushes (PlotPanZoomStackGroup 3) = Ok g2 ∧
    run [StackPop 2] g2 = Ok g1 ∧
    run (take 1 pushes) (PlotPanZoomStackGroup 3) = Ok g1 ∧
    Stack.getDepth <$> stacks g2 = [3; 3; 3] ∧
    Stack.getDepth <$> stacks g1 = [2; 2; 2].
Proof. do 2 eexists. repeat split; reflexivity. Qed.

(** C7. In every state its clients can bring a group to, a
    [pushPanZoom] through any decorated stack followed by one
    [popPanZoom] (of the group, or through any decorated stack) returns
    normally and gives back the state before the push: every stack has
    its former depth and its former top.  In between, every stack is
    one deeper. *)
Theorem pushPanZoom_popPanZoom_restores
    count calls g (i : nat) origin dimensions :
  run calls (PlotPanZoomStackGroup count) = Ok g →
  i < count →
  ∃ w g1,
    getPanZoomStack g (Z.of_nat i) = Ok (Some w) ∧
    w_pushPanZoom w origin dimensions g = Ok g1 ∧
    depths (S (getDepth g)) g1 ∧
    popPanZoom g1 = Ok g ∧
    (∀ w', w_popPanZoom w' g1 = Ok g) ∧
    depths (getDepth g) g ∧
    ∀ j, j < count →
      w_getDepth (decorateStack j j) g1 = Ok (S (getDepth g)) ∧
      w_getDepth (decorateStack j j) g = Ok (getDepth g).
Proof.
  intros Hrun Hi. pose proof (inv_reachable _ _ _ Hrun) as Hinv.
  pose proof Hinv as [Hc Hdec (d & Hd & Hg)].
  destruct (lookup_stack count g i Hinv Hi) as [stack_i Hsi].
  rewrite (getDepth_depths d g stack_i i Hg Hsi).
  exists (decorateStack i i).
  destruct (pushPanZoom_Ok origin dimensions i g d Hd Hg)
    as (g1 & Heq & Hdec1 & Hlen & Hg1 & Hat).
  exists g1. split; [by apply (getPanZoomStack_in count)|].
  split; [exact Heq|]. split; [exact Hg1|].
  assert (popPanZoom g1 = Ok g) as Hpop.
  { rewrite popPanZoom_map. destruct g as [l ws]. unfold with_stacks.
    simpl in *. rewrite Hdec1. f_equal. f_equal.
    apply list_eq. intros j. rewrite list_lookup_fmap.
    destruct (l !! j) as [stack|] eqn:Hj.
    - destruct (Hat j stack Hj) as (stack' & -> & Hpush). simpl. f_equal.
      destruct (pushPanZoom_each_Ok origin dimensions i stack j)
        as (top & _ & Heach).
      { rewrite (depths_lookup d _ j stack Hg Hj). done. }
      rewrite Heach in Hpush. injection Hpush as <-.
      assert (1 ≤ Stack.getDepth stack)
        by (rewrite (depths_lookup d _ j stack Hg Hj); done).
      destruct (decide (j = i)); by apply popPanZoom_pushPanZoom.
    - apply lookup_ge_None in Hj.
      rewrite (proj2 (lookup_ge_None (stacks g1) j)); [done|lia]. }
  split; [exact Hpop|]. split; [intros w'; exact Hpop|].
  split; [exact Hg|].
  intros j Hj.
  destruct (lookup_stack count g j Hinv Hj) as [stack Hs].
  destruct (Hat j stack Hs) as (stack' & Hs' & _).
  rewrite (w_getDepth_decorateStack g1 j stack' Hs').
  rewrite (w_getDepth_decorateStack g j stack Hs).
  rewrite (depths_lookup (S d) g1 j stack' Hg1 Hs').
  by rewrite (depths_lookup d g j stack Hg Hs).
Qed.

Lemma pushPanZoom_popPanZoom_restores_witness :
  ∃ w g g1,
    run [StackPush 0 [number 1; number 2] [number 3; number 4]]
      (PlotPanZoomStackGroup 3) = Ok g ∧
    w_pushPanZoom w [number 5; number 6] [number 7; number 8] g = Ok g1 ∧
    popPanZoom g1 = Ok g.
Proof.
  destruct (pushPanZoom_popPanZoom_restores 3
              [StackPush 0 [number 1; number 2] [number 3; number 4]]
              Sample.pushed_once 1 [number 5; number 6] [number 7; number 8])
    as (w & g1 & _ & H1 & _ & H2 & _); [reflexivity|lia|].
  exists w, Sample.pushed_once, g1.
  split; [reflexivity|]. split; [exact H1|exact H2].
Defined.
End pop_claims.

(** ** Construction and lookup *)

Section construction_claims.
Import Group Invariant Client.

(** C4, as the code has it. In every state its clients can bring a group
    of [count] stacks to, [getPanZoomStack(index)] for an index below 0
    or not below [count] returns normally, and what it returns is
    [undefined]: no error is signalled, and no decorated stack (clamped
    or default) is handed out. *)
Theorem getPanZoomStack_out_of_range_undefined count calls g (index : Z) :
  run calls (PlotPanZoomStackGroup count) = Ok g →
  (index < 0 ∨ Z.of_nat count ≤ index)%Z →
  getPanZoomStack g index = Ok None.
Proof.
  intros Hrun Hi. apply (getPanZoomStack_out count).
  - by apply (inv_reachable count calls).
  - unfold index_ok. apply andb_false_iff.
    destruct Hi; [left; apply Z.leb_gt|right; apply Z.ltb_ge]; lia.
Qed.

Lemma getPanZoomStack_out_of_range_undefined_witness :
  getPanZoomStack Sample.pushed_once 3 = Ok None ∧
  getPanZoomStack Sample.pushed_once (-1) = Ok None.
Proof.
  split.
  - apply (getPanZoomStack_out_of_range_undefined 3
             [StackPush 0 [number 1; number 2] [number 3; number 4]]);
      [reflexivity|simpl; lia].
  - apply (getPanZoomStack_out_of_range_undefined 3
             [StackPush 0 [number 1; number 2] [number 3; number 4]]);
      [reflexivity|simpl; lia].
Defined.

(** C4, as the specification has it, fails: on the empty group, and one
    past the end or below 0 of a group of two, [getPanZoomStack] throws
    nothing. *)
Lemma getPanZoomStack_out_of_range_no_error :
  ¬ (∃ e, getPanZoomStack (PlotPanZoomStackGroup 0) 0 = Throw e) ∧
  ¬ (∃ e, getPanZoomStack (PlotPanZoomStackGroup 2) 2 = Throw e) ∧
  ¬ (∃ e, getPanZoomStack (PlotPanZoomStackGroup 2) (-1) = Throw e).
Proof. repeat split; intros [e H]; discriminate H. Qed.

(** C5, as the code has it. Right after the construction of a group of
    [count] stacks, each stack [i < count] holds the single base state
    whose origin is the empty array and whose dimensions are the empty
    array: its decorated stack returns [[]] from [getOrigin()] and from
    [getDimensions()], and 1 from [getDepth()]. *)
Theorem PlotPanZoomStackGroup_base_state count (i : nat) :
  i < count →
  let g := PlotPanZoomStackGroup count in
  stacks g !! i = Some [Stack.mkState [] []] ∧
  ∃ w, getPanZoomStack g (Z.of_nat i) = Ok (Some w) ∧
    w_getOrigin w g = Ok [] ∧
    w_getDimensions w g = Ok [] ∧
    w_getDepth w g = Ok 1.
Proof.
  intros Hi g.
  assert (stacks g !! i = Some [Stack.mkState [] []]) as Hs.
  { unfold g. rewrite stacks_PlotPanZoomStackGroup.
    by apply lookup_replicate_2. }
  split; [exact Hs|]. exists (decorateStack i i).
  split; [apply (getPanZoomStack_in count);
          [apply inv_PlotPanZoomStackGroup|done]|].
  rewrite (w_getOrigin_decorateStack g i _ Hs).
  rewrite (w_getDimensions_decorateStack g i _ Hs).
  rewrite (w_getDepth_decorateStack g i _ Hs). done.
Qed.

Lemma PlotPanZoomStackGroup_base_state_witness :
  stacks (PlotPanZoomStackGroup 3) !! 2 = Some [Stack.mkState [] []].
Proof.
  exact (proj1 (PlotPanZoomStackGroup_base_state 3 2 ltac:(lia))).
Defined.

(** C5, as the specification has it, fails: the base origin and
    dimensions of a fresh group of one are not [[0,0]]; read at 0 they
    are not even the number 0. *)
Lemma PlotPanZoomStackGroup_base_not_zero :
  let g := PlotPanZoomStackGroup 1 in
  w_getOrigin (decorateStack 0 0) g ≠ Ok [number 0; number 0] ∧
  w_getDimensions (decorateStack 0 0) g ≠ Ok [number 0; number 0] ∧
  ¬ (∃ w, getPanZoomStack g 0 = Ok (Some w) ∧
          w_getOrigin w g = Ok [number 0; number 0] ∧
          w_getDimensions w g = Ok [number 0; number 0]) ∧
  (∃ o, w_getOrigin (decorateStack 0 0) g = Ok o ∧
        array_get o 0 = undefined).
Proof.
  repeat split; try discriminate.
  - intros (w & Hw & Ho & _). injection Hw as <-. discriminate Ho.
  - by exists [].
Qed.

(** C9. In every state its clients can bring a group of [count] stacks
    to, the group's [getDepth()] is 0 when [count] is 0, and otherwise
    it is at least 1 and is the depth of every stack of the group. *)
Theorem getDepth_common count calls g :
  run calls (PlotPanZoomStackGroup count) = Ok g →
  match count with
  | 0 => getDepth g = 0
  | S _ => 1 ≤ getDepth g ∧ depths (getDepth g) g
  end.
Proof.
  intros Hrun. pose proof (inv_reachable _ _ _ Hrun) as Hinv.
  pose proof Hinv as [Hc Hdec (d & Hd & Hg)].
  destruct count as [|count].
  - unfold getDepth. by destruct (stacks g).
  - destruct (lookup_stack (S count) g 0 Hinv) as [stack0 H0]; [lia|].
    by rewrite (getDepth_depths d g stack0 0 Hg H0).
Qed.

Lemma getDepth_common_witness :
  (1 ≤ getDepth Sample.pushed_thrice ∧
   depths (getDepth Sample.pushed_thrice) Sample.pushed_thrice) ∧
  getDepth (PlotPanZoomStackGroup 0) = 0.
Proof.
  split.
  - exact (getDepth_common 2
             [StackPush 0 [number 1; number 2] [number 3; number 4];
              StackPush 1 [number 5; number 6] [number 7; number 8];
              StackPush 0 [number 9; number 0] [number 1; number 1]]
             Sample.pushed_thrice eq_refl).
  - exact (getDepth_common 0 [] (PlotPanZoomStackGroup 0) eq_refl).
Defined.

(** C10. A group constructed without stacks stays as constructed under
    every call that does not throw, and on it [popPanZoom()],
    [setBasePanZoom(origin, dimensions)] and [clearPanZoom()] return
    normally and change nothing; [getDepth()] is 0 before and after. *)
Theorem empty_group_noop calls g origin dimensions :
  run calls (PlotPanZoomStackGroup 0) = Ok g →
  g = PlotPanZoomStackGroup 0 ∧
  popPanZoom g = Ok g ∧
  setBasePanZoom origin dimensions g = Ok g ∧
  clearPanZoom g = Ok g ∧
  getDepth g = 0.
Proof.
  intros Hrun. destruct (inv_reachable _ _ _ Hrun) as [Hc Hdec _].
  destruct g as [l ws]. simpl in *.
  apply length_zero_iff_nil in Hc. subst l ws. repeat split.
Qed.

Lemma empty_group_noop_witness :
  let g := PlotPanZoomStackGroup 0 in
  run [GroupPop; GroupSetBase [number 1; number 2] [number 3; number 4];
       GroupClear] g = Ok g ∧
  popPanZoom g = Ok g ∧
  getDepth g = 0.
Proof.
  destruct (empty_group_noop
              [GroupPop; GroupSetBase [number 1; number 2] [number 3; number 4];
               GroupClear]
              (PlotPanZoomStackGroup 0)
              [number 1; number 2] [number 3; number 4] eq_refl)
    as (_ & H1 & _ & _ & H2).
  split; [reflexivity|]. split; [exact H1|exact H2].
Defined.
End construction_claims.

(** ** Replacing the base, and clearing *)

Section base_claims.
Import Group Invariant Client.

Lemma setBasePanZoom_lookup origin dimensions stack :
  Stack.setBasePanZoom origin dimensions stack !! 0 =
    Some (Stack.mkState origin dimensions) ∧
  ∀ k, 0 < k →
    Stack.setBasePanZoom origin dimensions stack !! k = stack !! k.
Proof.
  destruct stack as [|base pushed]; simpl; (split; [done|]).
  - intros [|k] Hk; [lia|done].
  - intros [|k] Hk; [lia|done].
Qed.

Lemma clearPanZoom_base stack :
  1 ≤ Stack.getDepth stack →
  ∃ base, stack !! 0 = Some base ∧ Stack.clearPanZoom stack = [base].
Proof.
  destruct stack as [|base pushed]; simpl; [lia|]. intros _.
  exists base. split; [done|]. unfold Stack.clearPanZoom. simpl.
  by rewrite take_0.
Qed.

Lemma clearPanZoom_twice stack :
  Stack.clearPanZoom (Stack.clearPanZoom stack) = Stack.clearPanZoom stack.
Proof. unfold Stack.clearPanZoom. rewrite take_take. done. Qed.

(** Test property 4 of the specification, run on the model: three
    states pushed on the base, then [setBasePanZoom], then
    [clearPanZoom]. *)
Example base_replacement_isolation :
  let stack :=
    Stack.pushPanZoom [number 5] [number 6]
      (Stack.pushPanZoom [number 3] [number 4]
         (Stack.pushPanZoom [number 1] [number 2]
            (Stack.PlotPanZoomStack [] []))) in
  let stack' := Stack.setBasePanZoom [number 8; number 9] [number 1; number 1] stack in
  Stack.getDepth stack' = 4 ∧
  drop 1 stack' = drop 1 stack ∧
  Stack.clearPanZoom stack' =
    [Stack.mkState [number 8; number 9] [number 1; number 1]].
Proof. repeat split. Qed.

(** C6. In every state its clients can bring a group to,
    [setBasePanZoom(origin, dimensions)], of the group or through any
    decorated stack, returns normally; afterwards index 0 of every stack
    is the state [(origin, dimensions)], whole and the same for every
    stack, and every stack has its former depth and its former entries
    at all indices above 0. *)
Theorem setBasePanZoom_frame count calls g (i : nat) origin dimensions :
  run calls (PlotPanZoomStackGroup count) = Ok g →
  i < count →
  ∃ w g',
    getPanZoomStack g (Z.of_nat i) = Ok (Some w) ∧
    w_setBasePanZoom w origin dimensions g = Ok g' ∧
    setBasePanZoom origin dimensions g = Ok g' ∧
    length (stacks g') = length (stacks g) ∧
    ∀ j stack, stacks g !! j = Some stack →
      ∃ stack',
        stacks g' !! j = Some stack' ∧
        stack' !! 0 = Some (Stack.mkState origin dimensions) ∧
        Stack.getDepth stack' = Stack.getDepth stack ∧
        ∀ k, 0 < k → stack' !! k = stack !! k.
Proof.
  intros Hrun Hi. pose proof (inv_reachable _ _ _ Hrun) as Hinv.
  pose proof Hinv as [Hc Hdec (d & Hd & Hg)].
  exists (decorateStack i i). eexists.
  split; [by apply (getPanZoomStack_in count)|].
  unfold w_setBasePanZoom. rewrite setBasePanZoom_map.
  split; [reflexivity|]. split; [reflexivity|]. simpl.
  split; [by rewrite length_fmap|].
  intros j stack Hj. exists (Stack.setBasePanZoom origin dimensions stack).
  rewrite list_lookup_fmap, Hj. split; [done|].
  destruct (setBasePanZoom_lookup origin dimensions stack) as [H0 Hk].
  split; [exact H0|]. split; [|exact Hk].
  apply getDepth_setBasePanZoom.
  by rewrite (depths_lookup d g j stack Hg Hj).
Qed.

Lemma setBasePanZoom_frame_witness :
  ∃ g',
    setBasePanZoom [number 8; number 9] [number 1; number 1]
      Sample.pushed_thrice = Ok g' ∧
    length (stacks g') = 2.
Proof.
  destruct (setBasePanZoom_frame 2
              [StackPush 0 [number 1; number 2] [number 3; number 4];
               StackPush 1 [number 5; number 6] [number 7; number 8];
               StackPush 0 [number 9; number 0] [number 1; number 1]]
              Sample.pushed_thrice 1
              [number 8; number 9] [number 1; number 1])
    as (w & g' & _ & _ & H1 & H2 & _); [reflexivity|lia|].
  exists g'. split; [exact H1|exact H2].
Defined.

(** C8. In every state its clients can bring a group to,
    [clearPanZoom()], of the group or through any decorated stack,
    returns normally, and a second [clearPanZoom()] changes nothing
    more.  After the first, every stack holds exactly the state it had
    at index 0, and that is also what the loop "[popPanZoom()] until
    the depth is 1" ends with on that stack, whenever it is given at
    least depth - 1 rounds. *)
Theorem clearPanZoom_idempotent count calls g :
  run calls (PlotPanZoomStackGroup count) = Ok g →
  ∃ g1,
    clearPanZoom g = Ok g1 ∧
    (∀ w, w_clearPanZoom w g = Ok g1) ∧
    clearPanZoom g1 = Ok g1 ∧
    length (stacks g1) = length (stacks g) ∧
    ∀ j stack, stacks g !! j = Some stack →
      ∃ base,
        stack !! 0 = Some base ∧
        stacks g1 !! j = Some [base] ∧
        ∀ fuel, Stack.getDepth stack ≤ S fuel →
          Stack.popUntilBase fuel stack = Some [base].
Proof.
  intros Hrun. pose proof (inv_reachable _ _ _ Hrun) as Hinv.
  pose proof Hinv as [Hc Hdec (d & Hd & Hg)].
  eexists. unfold w_clearPanZoom. rewrite clearPanZoom_map.
  split; [reflexivity|]. split; [reflexivity|].
  split.
  { rewrite clearPanZoom_map. unfold with_stacks. simpl. do 2 f_equal.
    rewrite <- list_fmap_compose. apply list_fmap_ext.
    intros k stack _. apply clearPanZoom_twice. }
  simpl. split; [by rewrite length_fmap|].
  intros j stack Hj.
  assert (1 ≤ Stack.getDepth stack) as Hs
    by (by rewrite (depths_lookup d g j stack Hg Hj)).
  destruct (clearPanZoom_base stack Hs) as (base & Hb & Hclear).
  exists base. split; [done|]. rewrite list_lookup_fmap, Hj. simpl.
  split; [by rewrite Hclear|].
  intros fuel Hfuel. rewrite <- Hclear.
  by apply popUntilBase_clearPanZoom.
Qed.

Lemma clearPanZoom_idempotent_witness :
  ∃ g1,
    clearPanZoom Sample.pushed_thrice = Ok g1 ∧
    clearPanZoom g1 = Ok g1.
Proof.
  destruct (clearPanZoom_idempotent 2
              [StackPush 0 [number 1; number 2] [number 3; number 4];
               StackPush 1 [number 5; number 6] [number 7; number 8];
               StackPush 0 [number 9; number 0] [number 1; number 1]]
              Sample.pushed_thrice eq_refl)
    as (g1 & H1 & _ & H2 & _).
  exists g1. split; [exact H1|exact H2].
Defined.
End base_claims.

(** ** A group is its stacks, each driven by the calls and its own index *)

Section view_facts.
Import Group Invariant Client View.
Implicit Types (g : group) (origin dimensions : array) (stack : Stack.t).

Lemma run_app calls1 : ∀ calls2 g,
  run (calls1 ++ calls2) g = g' ← run calls1 g; run calls2 g'.
Proof.
  induction calls1 as [|c calls1 IH]; intros calls2 g; simpl; [done|].
  destruct (step c g) as [g1|e]; simpl; [apply IH|done].
Qed.

Lemma with_stacks_same g : with_stacks g (stacks g) = g.
Proof. by destruct g. Qed.

Lemma step_stacks count c g g' :
  inv count g → step c g = Ok g' →
  g' = with_stacks g (imap (stack_after c) (stacks g)).
Proof.
  intros Hinv H.
  destruct c as [|o d| |index origin dimensions|index|index o d|index];
    simpl in H;
    try (apply on_stack_Ok in H as (w & Hw & H));
    unfold w_popPanZoom, w_setBasePanZoom, w_clearPanZoom in H;
    rewrite ?popPanZoom_map, ?setBasePanZoom_map, ?clearPanZoom_map in H;
    try (injection H as <-; f_equal; apply list_eq; intros j;
         rewrite list_lookup_imap, list_lookup_fmap;
         by destruct (stacks g !! j)).
  destruct (getPanZoomStack_Some count g index w Hinv Hw) as (i & -> & Hi & ->).
  unfold w_pushPanZoom, pushPanZoom in H. simpl in H.
  destruct (forEach (pushPanZoom_each origin dimensions i) 0 (stacks g))
    as [l'|e] eqn:E; simpl in H; [|done].
  injection H as <-. f_equal.
  destruct (forEach_Ok _ _ _ _ E) as [Hlen Hat].
  destruct Hinv as [_ _ (d & Hd & Hg)].
  apply list_eq. intros j. rewrite list_lookup_imap.
  destruct (stacks g !! j) as [stack|] eqn:Hj; simpl.
  - destruct (Hat j stack Hj) as (stack' & -> & Hpush). f_equal.
    destruct (pushPanZoom_each_Ok origin dimensions i stack (0 + j))
      as (top & Htop & Heach).
    { by rewrite (depths_lookup d g j stack Hg Hj). }
    rewrite Heach in Hpush. injection Hpush as <-. simpl.
    rewrite Htop.
    destruct (decide (j = i)) as [->|Hne].
    + by rewrite decide_True.
    + rewrite decide_False; [done|]. lia.
  - apply lookup_ge_None. apply lookup_ge_None in Hj. lia.
Qed.

Lemma run_stacks calls : ∀ count g g',
  inv count g → run calls g = Ok g' →
  g' = with_stacks g (imap (stack_after_all calls) (stacks g)).
Proof.
  induction calls as [|c calls IH]; intros count g g' Hinv H; simpl in H.
  - injection H as <-. unfold stack_after_all. simpl.
    rewrite <- (with_stacks_same g) at 1. f_equal.
    apply list_eq. intros j. rewrite list_lookup_imap.
    by destruct (stacks g !! j).
  - destruct (step c g) as [g1|e] eqn:E; simpl in H; [|done].
    pose proof (inv_step count c g g1 Hinv E) as Hinv1.
    rewrite (IH count g1 g' Hinv1 H).
    rewrite (step_stacks count c g g1 Hinv E). unfold with_stacks. simpl.
    f_equal. apply list_eq. intros j. rewrite !list_lookup_imap.
    by destruct (stacks g !! j).
Qed.

Lemma stacks_reachable count calls g j :
  run calls (PlotPanZoomStackGroup count) = Ok g → j < count →
  stacks g !! j =
  Some (stack_after_all calls j (Stack.PlotPanZoomStack [] [])).
Proof.
  intros Hrun Hj.
  pose proof (stacks_PlotPanZoomStackGroup count) as Hs.
  pose proof (inv_PlotPanZoomStackGroup count) as Hinv.
  remember (PlotPanZoomStackGroup count) as g0 eqn:Hg0.
  rewrite (run_stacks calls count g0 g Hinv Hrun).
  simpl. rewrite list_lookup_imap, Hs.
  by rewrite lookup_replicate_2.
Qed.

Lemma step_out_of_range count c g :
  inv count g → call_ok count c = false → step c g = Throw TypeError.
Proof.
  intros Hinv Hc.
  destruct c as [|o d| |index o d|index|index o d|index];
    simpl in *; try done; unfold on_stack;
    by rewrite (getPanZoomStack_out count g index Hinv Hc).
Qed.

End view_facts.

(** ** What a call does to one stack *)

Section stack_after_facts.
Import Group Client View.
Implicit Types (c : call) (stack : Stack.t) (j : nat).

Lemma stack_after_push_top index origin dimensions j stack :
  1 ≤ Stack.getDepth stack →
  ∃ top new,
    Stack.getPanZoom stack = Ok top ∧
    stack_after (StackPush index origin dimensions) j stack = stack ++ [new] ∧
    domain new = (array_get origin 0, array_get dimensions 0) ∧
    (index ≠ Z.of_nat j → range new = range top) ∧
    (index = Z.of_nat j → new = Stack.mkState origin dimensions).
Proof.
  intros H. destruct (getPanZoom_Ok stack H) as [top Htop].
  exists top. simpl. rewrite Htop.
  destruct (decide (index = Z.of_nat j)); eexists; (split; [done|]);
    (split; [reflexivity|]); (split; [done|]); split; done.
Qed.

Lemma getDepth_stack_after c j stack :
  1 ≤ Stack.getDepth stack →
  Stack.getDepth (stack_after c j stack) = depth_after c (Stack.getDepth stack).
Proof.
  intros H.
  destruct c as [|o d| |index o d|index|index o d|index]; simpl;
    try (by apply getDepth_setBasePanZoom);
    try (by apply getDepth_clearPanZoom).
  - rewrite getDepth_popPanZoom.
    destruct (Stack.getDepth stack =? 1) eqn:E; [|done].
    apply Nat.eqb_eq in E. lia.
  - destruct (stack_after_push_top index o d j stack H)
      as (top & new & _ & Heq & _).
    simpl in Heq. rewrite Heq. unfold Stack.getDepth.
    rewrite length_app. simpl. lia.
  - rewrite getDepth_popPanZoom.
    destruct (Stack.getDepth stack =? 1) eqn:E; [|done].
    apply Nat.eqb_eq in E. lia.
Qed.

Lemma depth_after_ge_1 c d : 1 ≤ d → 1 ≤ depth_after c d.
Proof.
  intros H. destruct c; simpl; try lia;
    destruct (d =? 1) eqn:E; try lia; apply Nat.eqb_neq in E; lia.
Qed.

Lemma getDepth_stack_after_all calls j : ∀ stack,
  1 ≤ Stack.getDepth stack →
  Stack.getDepth (stack_after_all calls j stack) =
    fold_left (fun d c => depth_after c d) calls (Stack.getDepth stack) ∧
  1 ≤ Stack.getDepth (stack_after_all calls j stack).
Proof.
  unfold stack_after_all.
  induction calls as [|c calls IH]; intros stack H; simpl; [done|].
  destruct (IH (stack_after c j stack)) as [IH1 IH2].
  { rewrite getDepth_stack_after; [|done]. by apply depth_after_ge_1. }
  split; [|done]. rewrite IH1. by rewrite getDepth_stack_after.
Qed.

Lemma domain_stack_after c j j' stack stack' :
  1 ≤ Stack.getDepth stack →
  domain <$> stack = domain <$> stack' →
  domain <$> stack_after c j stack = domain <$> stack_after c j' stack'.
Proof.
  intros H Heq.
  assert (Stack.getDepth stack' = Stack.getDepth stack) as Hlen.
  { unfold Stack.getDepth.
    rewrite <- (length_fmap domain stack'), <- Heq. apply length_fmap. }
  assert (1 ≤ Stack.getDepth stack') as H' by lia.
  destruct c as [|o d| |index o d|index|index o d|index].
  1,5: simpl; rewrite !popPanZoom_take, Hlen;
       destruct (Stack.getDepth stack =? 1); [done|];
       by rewrite !fmap_take, Heq.
  1,4: destruct stack as [|b s]; [simpl in H; lia|];
       destruct stack' as [|b' s']; [simpl in H'; lia|];
       apply (f_equal (@tail _)) in Heq; simpl in *; by f_equal.
  1,3: simpl; unfold Stack.clearPanZoom; by rewrite !fmap_take, Heq.
  destruct (stack_after_push_top index o d j stack H)
    as (top & new & _ & -> & Hd & _).
  destruct (stack_after_push_top index o d j' stack' H')
    as (top' & new' & _ & -> & Hd' & _).
  rewrite !fmap_app, Heq. simpl. by rewrite Hd, Hd'.
Qed.

Lemma domain_stack_after_all calls j j' : ∀ stack stack',
  1 ≤ Stack.getDepth stack →
  domain <$> stack = domain <$> stack' →
  domain <$> stack_after_all calls j stack =
  domain <$> stack_after_all calls j' stack'.
Proof.
  unfold stack_after_all.
  induction calls as [|c calls IH]; intros stack stack' H Heq; simpl; [done|].
  apply IH.
  - rewrite getDepth_stack_after; [|done]. by apply depth_after_ge_1.
  - by apply domain_stack_after.
Qed.

Lemma base_stack_after c j stack base :
  stack !! 0 = Some base →
  stack_after c j stack !! 0 = Some (base_after c base).
Proof.
  intros Hb.
  assert (1 ≤ Stack.getDepth stack) as H.
  { apply lookup_lt_Some in Hb. unfold Stack.getDepth. lia. }
  destruct c as [|o d| |index o d|index|index o d|index]; unfold base_after.
  1,5: unfold stack_after; rewrite popPanZoom_take;
       destruct (Stack.getDepth stack =? 1) eqn:E; [done|];
       apply Nat.eqb_neq in E; unfold Stack.t in *;
       rewrite lookup_take_lt; [done|lia].
  1,4: unfold stack_after; by destruct stack.
  1,3: unfold stack_after, Stack.clearPanZoom, Stack.t in *;
       rewrite lookup_take_lt; [done|lia].
  destruct (stack_after_push_top index o d j stack H)
    as (top & new & _ & Heq & _).
  rewrite Heq. unfold Stack.t in *. rewrite lookup_app_l; [done|].
  unfold Stack.getDepth in H. lia.
Qed.

Lemma base_stack_after_all calls j : ∀ stack base,
  stack !! 0 = Some base →
  stack_after_all calls j stack !! 0 =
  Some (fold_left (fun base c => base_after c base) calls base).
Proof.
  unfold stack_after_all.
  induction calls as [|c calls IH]; intros stack base Hb; simpl; [done|].
  apply IH. by apply base_stack_after.
Qed.

Lemma range_stack_after_pushes count j pushes : ∀ stack top,
  forallb (is_push_elsewhere count j) pushes = true →
  Stack.getPanZoom stack = Ok top →
  ∃ top',
    Stack.getPanZoom (stack_after_all pushes j stack) = Ok top' ∧
    range top' = range top ∧
    Stack.getDepth (stack_after_all pushes j stack) =
      Stack.getDepth stack + length pushes.
Proof.
  unfold stack_after_all.
  induction pushes as [|c pushes IH]; intros stack top Hp Htop; simpl in *.
  - exists top. split; [done|]. split; [done|lia].
  - apply andb_true_iff in Hp as [Hc Hp].
    destruct c as [|o d| |index o d|index|index o d|index]; try done.
    simpl in Hc. apply andb_true_iff in Hc as [_ Hne].
    apply negb_true_iff, Z.eqb_neq in Hne.
    assert (1 ≤ Stack.getDepth stack) as H.
    { unfold Stack.getPanZoom, Stack.getDepth in *.
      destruct stack; [done|simpl; lia]. }
    destruct (stack_after_push_top index o d j stack H)
      as (top0 & new & Htop0 & Heq & _ & Hr & _).
    rewrite Htop in Htop0. injection Htop0 as <-.
    destruct (IH (stack_after (StackPush index o d) j stack) new Hp)
      as (top' & Ht' & Hr' & Hd').
    { rewrite Heq. unfold Stack.getPanZoom. by rewrite last_snoc. }
    exists top'. split; [exact Ht'|]. split; [by rewrite Hr', Hr|].
    rewrite Hd', Heq. unfold Stack.getDepth. rewrite length_app. simpl. lia.
Qed.

Lemma stack_after_pushes_pops count j pushes : ∀ stack,
  forallb (is_push count) pushes = true →
  1 ≤ Stack.getDepth stack →
  stack_after_all (pushes ++ replicate (length pushes) GroupPop) j stack = stack.
Proof.
  unfold stack_after_all.
  induction pushes as [|c pushes IH]; intros stack Hp H; [done|].
  cbn [forallb] in Hp. apply andb_true_iff in Hp as [Hc Hp].
  destruct c as [|o d| |index o d|index|index o d|index]; try done.
  destruct (stack_after_push_top index o d j stack H)
    as (top & new & _ & Heq & _).
  cbn [length]. rewrite replicate_S_end, app_assoc, fold_left_app.
  rewrite <- app_comm_cons. cbn [fold_left].
  rewrite IH; [|done|].
  - rewrite Heq. destruct new as [o' d'].
    by apply (popPanZoom_pushPanZoom o' d' stack).
  - rewrite Heq. unfold Stack.getDepth. rewrite length_app. simpl. lia.
Qed.

Lemma stack_after_pops_clear j n : ∀ stack,
  1 ≤ Stack.getDepth stack → Stack.getDepth stack - 1 ≤ n →
  stack_after_all (replicate n GroupPop) j stack = Stack.clearPanZoom stack.
Proof.
  unfold stack_after_all.
  induction n as [|n IH]; intros stack H Hn; simpl.
  - unfold Stack.clearPanZoom. symmetry. apply take_ge.
    unfold Stack.getDepth in *. lia.
  - rewrite IH.
    + rewrite popPanZoom_take.
      destruct (Stack.getDepth stack =? 1) eqn:E; [done|].
      apply Nat.eqb_neq in E.
      unfold Stack.clearPanZoom. rewrite take_take. f_equal. lia.
    + rewrite getDepth_popPanZoom.
      destruct (Stack.getDepth stack =? 1) eqn:E; [lia|].
      apply Nat.eqb_neq in E. lia.
    + rewrite getDepth_popPanZoom. destruct (Stack.getDepth stack =? 1); lia.
Qed.

Lemma stack_after_plain calls j : ∀ stack,
  forallb (pushes_only_through j) calls = true →
  stack_after_all calls j stack = plain_after_all calls stack.
Proof.
  unfold stack_after_all, plain_after_all.
  induction calls as [|c calls IH]; intros stack Hp; simpl in *; [done|].
  apply andb_true_iff in Hp as [Hc Hp].
  rewrite <- IH; [|done]. f_equal.
  destruct c as [|o d| |index o d|index|index o d|index]; try done.
  simpl in *. apply Z.eqb_eq in Hc. by rewrite decide_True.
Qed.
End stack_after_facts.

(** ** Further properties of the group *)

Section group_properties.
Import Group Invariant Client View.
Implicit Types (g : group) (origin dimensions : array) (stack : Stack.t).

Lemma forallb_weaken {A : Type} (p q : A → bool) (l : list A) :
  (∀ x, p x = true → q x = true) → forallb p l = true → forallb q l = true.
Proof.
  intros Hpq. induction l as [|x l IH]; simpl; [done|].
  rewrite !andb_true_iff. intros [Hx Hl]. split; [by apply Hpq|by apply IH].
Qed.

Lemma is_push_call_ok count c : is_push count c = true → call_ok count c = true.
Proof. by destruct c. Qed.

Lemma is_push_elsewhere_call_ok count j c :
  is_push_elsewhere count j c = true → call_ok count c = true.
Proof. destruct c; simpl; try done. by intros [? _]%andb_true_iff. Qed.

Lemma forallb_replicate {A : Type} (p : A → bool) n x :
  p x = true → forallb p (replicate n x) = true.
Proof. intros H. induction n as [|n IH]; simpl; [done|]. by rewrite H, IH. Qed.

(** A sequence of calls on existing stacks does to the group what it
    does to each stack. *)
Lemma run_stackwise count calls g (h : nat → Stack.t → Stack.t) :
  inv count g →
  forallb (call_ok count) calls = true →
  (∀ j stack, stacks g !! j = Some stack →
     stack_after_all calls j stack = h j stack) →
  run calls g = Ok (with_stacks g (imap h (stacks g))).
Proof.
  intros Hinv Hok Hh.
  destruct (run_total calls count g Hinv Hok) as [g' Hrun].
  rewrite Hrun. f_equal.
  rewrite (run_stacks calls count g g' Hinv Hrun). f_equal.
  by apply imap_ext.
Qed.

Lemma imap_same {A : Type} (l : list A) : imap (fun _ x => x) l = l.
Proof.
  apply list_eq. intros j. rewrite list_lookup_imap. by destruct (l !! j).
Qed.

Lemma stack_depth_reachable count g j stack :
  inv count g → stacks g !! j = Some stack → 1 ≤ Stack.getDepth stack.
Proof.
  intros [_ _ (d & Hd & Hg)] Hj. by rewrite (depths_lookup d g j stack Hg Hj).
Qed.

(** X1. A sequence of calls made on a fresh group of [count] stacks
    returns normally exactly when every decorated stack it goes through is
    fetched with an index from 0 to [count - 1]; the calls on the group
    object itself never throw. *)
Theorem run_returns_iff_indices_exist count calls :
  (∃ g, run calls (PlotPanZoomStackGroup count) = Ok g) ↔
  forallb (call_ok count) calls = true.
Proof.
  pose proof (inv_PlotPanZoomStackGroup count) as Hinv.
  revert Hinv. generalize (PlotPanZoomStackGroup count) as g.
  induction calls as [|c calls IH]; intros g Hinv; simpl.
  - split; [done|by eexists].
  - rewrite andb_true_iff. split.
    + intros [g' H].
      destruct (call_ok count c) eqn:Hc.
      * split; [done|].
        destruct (step c g) as [g1|e] eqn:E; simpl in H; [|done].
        apply (IH g1); [by eapply inv_step|by exists g'].
      * rewrite (step_out_of_range count c g Hinv Hc) in H. done.
    + intros [Hc Hcs].
      destruct (step_total count c g Hinv Hc) as [g1 E]. rewrite E. simpl.
      apply (IH g1); [by eapply inv_step|done].
Qed.

(** X2. In every state its clients can bring a group to, any two stacks
    agree on the domain axis at every level: the lists of their
    [(origin[0], dimensions[0])] pairs, from base to top, are equal.  In
    particular the decorated stacks all return the same [getOrigin()[0]]
    and the same [getDimensions()[0]]. *)
Theorem domain_synchronized count calls g (i j : nat) :
  run calls (PlotPanZoomStackGroup count) = Ok g →
  i < count → j < count →
  ∃ wi wj si sj oi oj di dj,
    getPanZoomStack g (Z.of_nat i) = Ok (Some wi) ∧
    getPanZoomStack g (Z.of_nat j) = Ok (Some wj) ∧
    stacks g !! i = Some si ∧ stacks g !! j = Some sj ∧
    domain <$> si = domain <$> sj ∧
    w_getOrigin wi g = Ok oi ∧ w_getOrigin wj g = Ok oj ∧
    array_get oi 0 = array_get oj 0 ∧
    w_getDimensions wi g = Ok di ∧ w_getDimensions wj g = Ok dj ∧
    array_get di 0 = array_get dj 0.
Proof.
  intros Hrun Hi Hj. pose proof (inv_reachable _ _ _ Hrun) as Hinv.
  pose proof (stacks_reachable count calls g i Hrun Hi) as Hsi.
  pose proof (stacks_reachable count calls g j Hrun Hj) as Hsj.
  set (si := stack_after_all calls i (Stack.PlotPanZoomStack [] [])) in *.
  set (sj := stack_after_all calls j (Stack.PlotPanZoomStack [] [])) in *.
  assert (domain <$> si = domain <$> sj) as Hdom
    by (by apply domain_stack_after_all).
  destruct (getPanZoom_Ok si (stack_depth_reachable count g i si Hinv Hsi))
    as [ti Hti].
  destruct (getPanZoom_Ok sj (stack_depth_reachable count g j sj Hinv Hsj))
    as [tj Htj].
  assert (domain ti = domain tj) as Htop.
  { unfold Stack.getPanZoom in Hti, Htj.
    destruct (last si) as [ti'|] eqn:Ei; [|done].
    destruct (last sj) as [tj'|] eqn:Ej; [|done].
    injection Hti as ->. injection Htj as ->.
    apply (f_equal last) in Hdom. rewrite !fmap_last, Ei, Ej in Hdom.
    change (Some (domain ti) = Some (domain tj)) in Hdom. congruence. }
  unfold domain in Htop. injection Htop as Ho Hd.
  exists (decorateStack i i), (decorateStack j j), si, sj,
    (Stack.origin ti), (Stack.origin tj),
    (Stack.dimensions ti), (Stack.dimensions tj).
  rewrite (getPanZoomStack_in count g i Hinv Hi).
  rewrite (getPanZoomStack_in count g j Hinv Hj).
  rewrite (w_getOrigin_decorateStack g i si Hsi).
  rewrite (w_getOrigin_decorateStack g j sj Hsj).
  rewrite (w_getDimensions_decorateStack g i si Hsi).
  rewrite (w_getDimensions_decorateStack g j sj Hsj).
  unfold Stack.getOrigin, Stack.getDimensions. rewrite Hti, Htj. simpl.
  repeat split; done.
Qed.

Lemma domain_synchronized_witness :
  ∃ si sj,
    stacks Sample.pushed_thrice !! 0 = Some si ∧
    stacks Sample.pushed_thrice !! 1 = Some sj ∧
    domain <$> si = domain <$> sj.
Proof.
  destruct (domain_synchronized 2
              [StackPush 0 [number 1; number 2] [number 3; number 4];
               StackPush 1 [number 5; number 6] [number 7; number 8];
               StackPush 0 [number 9; number 0] [number 1; number 1]]
              Sample.pushed_thrice 0 1)
    as (wi & wj & si & sj & oi & oj & di & dj & _ & _ & H1 & H2 & H3 & _);
    [reflexivity|lia|lia|].
  exists si, sj. split; [exact H1|]. split; [exact H2|exact H3].
Defined.

(** X3. Pushes made through other decorated stacks never change the range
    axis of a stack: after any number of [pushPanZoom] calls, none of
    them through stack [j], stack [j] is deeper by that number and its
    top has the [origin[1]] and [dimensions[1]] it had before. *)
Theorem range_independent count calls g pushes (j : nat) :
  run calls (PlotPanZoomStackGroup count) = Ok g →
  j < count →
  forallb (is_push_elsewhere count j) pushes = true →
  ∃ g' stack stack' top top',
    run pushes g = Ok g' ∧
    stacks g !! j = Some stack ∧
    stacks g' !! j = Some stack' ∧
    Stack.getPanZoom stack = Ok top ∧
    Stack.getPanZoom stack' = Ok top' ∧
    range top' = range top ∧
    Stack.getDepth stack' = Stack.getDepth stack + length pushes.
Proof.
  intros Hrun Hj Hp. pose proof (inv_reachable _ _ _ Hrun) as Hinv.
  destruct (run_total pushes count g Hinv) as [g' Hg'].
  { eapply forallb_weaken; [|exact Hp]. apply is_push_elsewhere_call_ok. }
  destruct (lookup_stack count g j Hinv Hj) as [stack Hs].
  destruct (getPanZoom_Ok stack (stack_depth_reachable count g j stack Hinv Hs))
    as [top Htop].
  destruct (range_stack_after_pushes count j pushes stack top Hp Htop)
    as (top' & Ht' & Hr & Hd).
  exists g', stack, (stack_after_all pushes j stack), top, top'.
  split; [done|]. split; [done|]. split; [|done].
  rewrite (run_stacks pushes count g g' Hinv Hg'). simpl.
  by rewrite list_lookup_imap, Hs.
Qed.

Lemma range_independent_witness :
  ∃ g' stack' top',
    run [StackPush 0 [number 5; number 6] [number 7; number 8];
         StackPush 2 [number 9; number 0] [number 1; number 1]]
      Sample.pushed_once = Ok g' ∧
    stacks g' !! 1 = Some stack' ∧
    Stack.getPanZoom stack' = Ok top' ∧
    range top' = (undefined, undefined).
Proof.
  destruct (range_independent 3
              [StackPush 0 [number 1; number 2] [number 3; number 4]]
              Sample.pushed_once
              [StackPush 0 [number 5; number 6] [number 7; number 8];
               StackPush 2 [number 9; number 0] [number 1; number 1]] 1)
    as (g' & stack & stack' & top & top' & H1 & H2 & H3 & H4 & H5 & H6 & _);
    [reflexivity|lia|reflexivity|].
  exists g', stack', top'. split; [exact H1|]. split; [exact H3|].
  split; [exact H5|]. rewrite H6.
  vm_compute in H2. injection H2 as <-.
  vm_compute in H4. injection H4 as <-. reflexivity.
Defined.

(** X4. In every state its clients can bring a group to, any number of
    [pushPanZoom] calls through any decorated stacks followed by the same
    number of [popPanZoom] calls returns normally and gives back the
    state before the first push. *)
Theorem pushes_pops_restore count calls g pushes :
  run calls (PlotPanZoomStackGroup count) = Ok g →
  forallb (is_push count) pushes = true →
  run (pushes ++ replicate (length pushes) GroupPop) g = Ok g.
Proof.
  intros Hrun Hp. pose proof (inv_reachable _ _ _ Hrun) as Hinv.
  rewrite (run_stackwise count _ g (fun _ stack => stack) Hinv).
  - by rewrite imap_same, with_stacks_same.
  - rewrite forallb_app. apply andb_true_iff. split.
    + eapply forallb_weaken; [|exact Hp]. apply is_push_call_ok.
    + by apply forallb_replicate.
  - intros j stack Hj. apply (stack_after_pushes_pops count); [done|].
    by apply (stack_depth_reachable count g j).
Qed.

Lemma pushes_pops_restore_witness :
  run ([StackPush 1 [number 5; number 6] [number 7; number 8];
        StackPush 0 [number 9; number 0] [number 1; number 1]]
       ++ [GroupPop; GroupPop]) Sample.pushed_once = Ok Sample.pushed_once.
Proof.
  exact (pushes_pops_restore 3
           [StackPush 0 [number 1; number 2] [number 3; number 4]]
           Sample.pushed_once
           [StackPush 1 [number 5; number 6] [number 7; number 8];
            StackPush 0 [number 9; number 0] [number 1; number 1]]
           eq_refl eq_refl).
Defined.
End group_properties.

(** ** Clearing, the base and the depth, from the calls alone *)

Section base_properties.
Import Group Invariant Client View.
Implicit Types (g : group) (origin dimensions : array) (stack : Stack.t).

Lemma getDepth_reachable count g j stack :
  inv count g → stacks g !! j = Some stack →
  Stack.getDepth stack = getDepth g.
Proof.
  intros [_ _ (d & Hd & Hg)] Hj.
  rewrite (getDepth_depths d g stack j Hg Hj).
  by apply (depths_lookup d g j).
Qed.

(** X5. In every state its clients can bring a group to, [popPanZoom()]
    called [n] times, for any [n] from [getDepth() - 1] on, does exactly
    what one [clearPanZoom()] does. *)
Theorem clearPanZoom_as_pops count calls g (n : nat) :
  run calls (PlotPanZoomStackGroup count) = Ok g →
  getDepth g - 1 ≤ n →
  run (replicate n GroupPop) g = clearPanZoom g.
Proof.
  intros Hrun Hn. pose proof (inv_reachable _ _ _ Hrun) as Hinv.
  rewrite (run_stackwise count _ g (fun _ => Stack.clearPanZoom) Hinv).
  - rewrite clearPanZoom_map. do 2 f_equal. apply (imap_const Stack.clearPanZoom).
  - by apply forallb_replicate.
  - intros j stack Hj. apply stack_after_pops_clear.
    + by apply (stack_depth_reachable count g j).
    + by rewrite (getDepth_reachable count g j stack Hinv Hj).
Qed.

Lemma clearPanZoom_as_pops_witness :
  run [GroupPop; GroupPop; GroupPop; GroupPop; GroupPop] Sample.pushed_thrice =
  clearPanZoom Sample.pushed_thrice.
Proof.
  apply (clearPanZoom_as_pops 2
           [StackPush 0 [number 1; number 2] [number 3; number 4];
            StackPush 1 [number 5; number 6] [number 7; number 8];
            StackPush 0 [number 9; number 0] [number 1; number 1]]
           Sample.pushed_thrice 5); [reflexivity|vm_compute; lia].
Defined.

(** X6. The base of every stack is decided by the [setBasePanZoom] calls
    alone: in the state a sequence of calls leaves, index 0 of every
    stack is the state of the last [setBasePanZoom] of the sequence, or
    [([], [])] when there was none; pushes, pops and clears never touch
    it, and [clearPanZoom()] leaves every stack with just that state. *)
Theorem base_is_last_setBasePanZoom count calls g (j : nat) :
  run calls (PlotPanZoomStackGroup count) = Ok g →
  j < count →
  ∃ stack g1,
    stacks g !! j = Some stack ∧
    stack !! 0 = Some (base_after_all calls) ∧
    clearPanZoom g = Ok g1 ∧
    stacks g1 !! j = Some [base_after_all calls].
Proof.
  intros Hrun Hj. pose proof (inv_reachable _ _ _ Hrun) as Hinv.
  pose proof (stacks_reachable count calls g j Hrun Hj) as Hs.
  assert (stack_after_all calls j (Stack.PlotPanZoomStack [] []) !! 0 =
          Some (base_after_all calls)) as Hb
    by (by apply base_stack_after_all).
  eexists _, _. split; [exact Hs|]. split; [exact Hb|].
  rewrite clearPanZoom_map. split; [reflexivity|]. simpl.
  rewrite list_lookup_fmap, Hs. simpl. f_equal.
  destruct (clearPanZoom_base
              (stack_after_all calls j (Stack.PlotPanZoomStack [] [])))
    as (base & Hb' & ->).
  { by apply (stack_depth_reachable count g j). }
  rewrite Hb in Hb'. by injection Hb' as <-.
Qed.

Lemma base_is_last_setBasePanZoom_witness :
  ∃ stack g,
    run [StackSetBase 1 [number 1; number 2] [number 3; number 4];
         StackPush 0 [number 5; number 6] [number 7; number 8];
         GroupSetBase [number 9; number 9] [number 2; number 2];
         StackPush 1 [number 0; number 0] [number 1; number 1]]
      (PlotPanZoomStackGroup 2) = Ok g ∧
    stacks g !! 0 = Some stack ∧
    stack !! 0 = Some (Stack.mkState [number 9; number 9] [number 2; number 2]).
Proof.
  eexists _, _. split; [reflexivity|].
  destruct (base_is_last_setBasePanZoom 2
              [StackSetBase 1 [number 1; number 2] [number 3; number 4];
               StackPush 0 [number 5; number 6] [number 7; number 8];
               GroupSetBase [number 9; number 9] [number 2; number 2];
               StackPush 1 [number 0; number 0] [number 1; number 1]]
              _ 0 eq_refl)
    as (stack & g1 & H1 & H2 & _); [lia|].
  vm_compute in H1. injection H1 as <-. split; reflexivity.
Defined.

(** X7. The depth of a group with at least one stack is decided by the
    kinds of the calls made on it: starting from 1, every [pushPanZoom]
    adds one, every [popPanZoom] takes one off unless the depth is 1,
    [setBasePanZoom] leaves it and [clearPanZoom] makes it 1. *)
Theorem getDepth_counts_calls count calls g :
  run calls (PlotPanZoomStackGroup count) = Ok g →
  1 ≤ count →
  getDepth g = depth_after_all calls.
Proof.
  intros Hrun Hc. pose proof (inv_reachable _ _ _ Hrun) as Hinv.
  assert (0 < count) as H0 by lia.
  pose proof (stacks_reachable count calls g 0 Hrun H0) as Hs.
  rewrite <- (getDepth_reachable count g 0 _ Hinv Hs).
  by destruct (getDepth_stack_after_all calls 0 (Stack.PlotPanZoomStack [] []))
    as [-> _].
Qed.

Lemma getDepth_counts_calls_witness :
  ∃ g,
    run [StackPush 0 [] []; GroupPop; GroupPop; StackPush 1 [] [];
         StackPush 1 [] []; GroupSetBase [] []; StackPop 0; StackPush 0 [] [];
         StackPush 0 [] []] (PlotPanZoomStackGroup 2) = Ok g ∧
    getDepth g = 4.
Proof.
  eexists. split; [reflexivity|].
  apply (getDepth_counts_calls 2
           [StackPush 0 [] []; GroupPop; GroupPop; StackPush 1 [] [];
            StackPush 1 [] []; GroupSetBase [] []; StackPop 0;
            StackPush 0 [] []; StackPush 0 [] []]); [reflexivity|lia].
Defined.

Lemma last_setBasePanZoom origin dimensions stack :
  2 ≤ Stack.getDepth stack →
  last (Stack.setBasePanZoom origin dimensions stack) = last stack.
Proof. destruct stack as [|b [|b' s]]; simpl; try lia. done. Qed.

(** X8. [setBasePanZoom] does not disturb the view once something has
    been pushed: in every state its clients can bring a group to,
    [setBasePanZoom(origin, dimensions)] leaves [getDepth()] of every
    decorated stack as it was, and it leaves [getOrigin()] and
    [getDimensions()] as they were when the depth is above 1; at depth 1
    they become [origin] and [dimensions]. *)
Theorem setBasePanZoom_keeps_view count calls g (i : nat) origin dimensions :
  run calls (PlotPanZoomStackGroup count) = Ok g →
  i < count →
  ∃ w g',
    getPanZoomStack g (Z.of_nat i) = Ok (Some w) ∧
    setBasePanZoom origin dimensions g = Ok g' ∧
    getPanZoomStack g' (Z.of_nat i) = Ok (Some w) ∧
    w_getDepth w g' = w_getDepth w g ∧
    if getDepth g =? 1 then
      w_getOrigin w g' = Ok origin ∧ w_getDimensions w g' = Ok dimensions
    else
      w_getOrigin w g' = w_getOrigin w g ∧
      w_getDimensions w g' = w_getDimensions w g.
Proof.
  intros Hrun Hi. pose proof (inv_reachable _ _ _ Hrun) as Hinv.
  destruct (lookup_stack count g i Hinv Hi) as [stack Hs].
  pose proof (stack_depth_reachable count g i stack Hinv Hs) as Hd.
  pose proof (getDepth_reachable count g i stack Hinv Hs) as Hg.
  exists (decorateStack i i). eexists.
  split; [by apply (getPanZoomStack_in count)|].
  rewrite setBasePanZoom_map. split; [reflexivity|].
  set (g' := with_stacks g _).
  assert (stacks g' !! i = Some (Stack.setBasePanZoom origin dimensions stack))
    as Hs' by (simpl; by rewrite list_lookup_fmap, Hs).
  split.
  { unfold getPanZoomStack. simpl. by apply (getPanZoomStack_in count). }
  rewrite (w_getDepth_decorateStack g' i _ Hs').
  rewrite (w_getDepth_decorateStack g i _ Hs).
  rewrite (w_getOrigin_decorateStack g' i _ Hs').
  rewrite (w_getOrigin_decorateStack g i _ Hs).
  rewrite (w_getDimensions_decorateStack g' i _ Hs').
  rewrite (w_getDimensions_decorateStack g i _ Hs).
  split; [by rewrite getDepth_setBasePanZoom|].
  rewrite <- Hg.
  destruct (Stack.getDepth stack =? 1) eqn:E.
  - apply Nat.eqb_eq in E. destruct stack as [|b [|b' s]]; done.
  - apply Nat.eqb_neq in E.
    unfold Stack.getOrigin, Stack.getDimensions, Stack.getPanZoom.
    rewrite last_setBasePanZoom; [done|lia].
Qed.

Lemma setBasePanZoom_keeps_view_witness :
  ∃ g',
    setBasePanZoom [number 8; number 9] [number 1; number 1]
      Sample.pushed_thrice = Ok g' ∧
    w_getOrigin (decorateStack 1 1) g' =
      w_getOrigin (decorateStack 1 1) Sample.pushed_thrice.
Proof.
  destruct (setBasePanZoom_keeps_view 2
              [StackPush 0 [number 1; number 2] [number 3; number 4];
               StackPush 1 [number 5; number 6] [number 7; number 8];
               StackPush 0 [number 9; number 0] [number 1; number 1]]
              Sample.pushed_thrice 1
              [number 8; number 9] [number 1; number 1])
    as (w & g' & H1 & H2 & _ & _ & H3); [reflexivity|lia|].
  exists g'. split; [exact H2|].
  vm_compute in H1. injection H1 as <-. exact (proj1 H3).
Defined.
End base_properties.

(** ** How the calls compose *)

Section composition_properties.
Import Group Invariant Client View.
Implicit Types (g : group) (origin dimensions : array) (stack : Stack.t).

Lemma stack_after_setBase_push index o d o' d' j stack :
  2 ≤ Stack.getDepth stack →
  stack_after_all [GroupSetBase o d; StackPush index o' d'] j stack =
  stack_after_all [StackPush index o' d'; GroupSetBase o d] j stack.
Proof.
  intros H. unfold stack_after_all. cbn [fold_left].
  unfold stack_after, Stack.getPanZoom.
  rewrite last_setBasePanZoom; [|done].
  destruct stack as [|b [|b' s]]; simpl in H; try lia.
  destruct (decide (index = Z.of_nat j)); [done|].
  by destruct (last (b :: b' :: s)).
Qed.

(** At depth 1 the order of [setBasePanZoom] and [pushPanZoom] matters:
    the other stacks repeat the range bounds of the base they see. *)
Example setBasePanZoom_pushPanZoom_at_base :
  let setBase := GroupSetBase [number 1; number 2] [number 3; number 4] in
  let push := StackPush 0 [number 5; number 6] [number 7; number 8] in
  ∃ g1 g2,
    run [setBase; push] (PlotPanZoomStackGroup 2) = Ok g1 ∧
    run [push; setBase] (PlotPanZoomStackGroup 2) = Ok g2 ∧
    w_getOrigin (decorateStack 1 1) g1 = Ok [number 5; number 2] ∧
    w_getOrigin (decorateStack 1 1) g2 = Ok [number 5; undefined].
Proof. do 2 eexists. repeat split; reflexivity. Qed.

(** X9. Once something has been pushed, a [setBasePanZoom] and a
    [pushPanZoom] through any decorated stack can be made in either
    order: in every state with [getDepth()] at least 2 both orders return
    normally and leave the same group. *)
Theorem setBasePanZoom_pushPanZoom_commute
    count calls g (i : nat) origin dimensions origin' dimensions' :
  run calls (PlotPanZoomStackGroup count) = Ok g →
  i < count →
  2 ≤ getDepth g →
  ∃ g',
    run [GroupSetBase origin dimensions;
         StackPush (Z.of_nat i) origin' dimensions'] g = Ok g' ∧
    run [StackPush (Z.of_nat i) origin' dimensions';
         GroupSetBase origin dimensions] g = Ok g'.
Proof.
  intros Hrun Hi Hd. pose proof (inv_reachable _ _ _ Hrun) as Hinv.
  assert (index_ok count (Z.of_nat i) = true) as Hok.
  { unfold index_ok. apply andb_true_iff.
    split; [apply Z.leb_le|apply Z.ltb_lt]; lia. }
  eexists. split.
  - apply (run_stackwise count); [done|by simpl; rewrite Hok|done].
  - apply (run_stackwise count); [done|by simpl; rewrite Hok|].
    intros j stack Hj. symmetry. apply stack_after_setBase_push.
    by rewrite (getDepth_reachable count g j stack Hinv Hj).
Qed.

Lemma setBasePanZoom_pushPanZoom_commute_witness :
  run [GroupSetBase [number 8; number 9] [number 1; number 1];
       StackPush 2 [number 5; number 6] [number 7; number 8]]
    Sample.pushed_once =
  run [StackPush 2 [number 5; number 6] [number 7; number 8];
       GroupSetBase [number 8; number 9] [number 1; number 1]]
    Sample.pushed_once.
Proof.
  destruct (setBasePanZoom_pushPanZoom_commute 3
              [StackPush 0 [number 1; number 2] [number 3; number 4]]
              Sample.pushed_once 2
              [number 8; number 9] [number 1; number 1]
              [number 5; number 6] [number 7; number 8])
    as (g' & H1 & H2); [reflexivity|lia|vm_compute; lia|].
  exact (eq_trans H1 (eq_sym H2)).
Defined.

Lemma stack_after_setBase_clear o d j stack :
  1 ≤ Stack.getDepth stack →
  stack_after_all [GroupSetBase o d; GroupClear] j stack = [Stack.mkState o d] ∧
  stack_after_all [GroupClear; GroupSetBase o d] j stack = [Stack.mkState o d].
Proof.
  destruct stack as [|b s]; simpl; [lia|]. intros _.
  unfold stack_after_all, Stack.clearPanZoom. simpl. by rewrite !take_0.
Qed.

Lemma imap_replicate_const {A B : Type} (x : B) (l : list A) :
  imap (fun _ _ => x) l = replicate (length l) x.
Proof.
  apply list_eq. intros j. rewrite list_lookup_imap.
  destruct (l !! j) as [y|] eqn:E; simpl.
  - symmetry. apply lookup_replicate_2. by apply lookup_lt_Some in E.
  - symmetry. apply lookup_ge_None. rewrite length_replicate.
    by apply lookup_ge_None in E.
Qed.

(** X10. In every state its clients can bring a group to,
    [setBasePanZoom(origin, dimensions)] and [clearPanZoom()], in either
    order, return normally and leave every one of the [count] stacks with
    the single state [(origin, dimensions)]. *)
Theorem setBasePanZoom_clearPanZoom count calls g origin dimensions :
  run calls (PlotPanZoomStackGroup count) = Ok g →
  ∃ g',
    run [GroupSetBase origin dimensions; GroupClear] g = Ok g' ∧
    run [GroupClear; GroupSetBase origin dimensions] g = Ok g' ∧
    stacks g' = replicate count [Stack.mkState origin dimensions].
Proof.
  intros Hrun. pose proof (inv_reachable _ _ _ Hrun) as Hinv.
  exists (with_stacks g
            (imap (fun _ _ => [Stack.mkState origin dimensions]) (stacks g))).
  split; [|split].
  - apply (run_stackwise count); [done|done|]. intros j stack Hj.
    apply stack_after_setBase_clear.
    by apply (stack_depth_reachable count g j).
  - apply (run_stackwise count); [done|done|]. intros j stack Hj.
    apply stack_after_setBase_clear.
    by apply (stack_depth_reachable count g j).
  - simpl. rewrite imap_replicate_const. by destruct Hinv as [-> _ _].
Qed.

Lemma setBasePanZoom_clearPanZoom_witness :
  ∃ g',
    run [GroupSetBase [number 8; number 9] [number 1; number 1]; GroupClear]
      Sample.pushed_thrice = Ok g' ∧
    stacks g' =
      [[Stack.mkState [number 8; number 9] [number 1; number 1]];
       [Stack.mkState [number 8; number 9] [number 1; number 1]]].
Proof.
  destruct (setBasePanZoom_clearPanZoom 2
              [StackPush 0 [number 1; number 2] [number 3; number 4];
               StackPush 1 [number 5; number 6] [number 7; number 8];
               StackPush 0 [number 9; number 0] [number 1; number 1]]
              Sample.pushed_thrice
              [number 8; number 9] [number 1; number 1] eq_refl)
    as (g' & H1 & _ & H2).
  exists g'. split; [exact H1|exact H2].
Defined.

(** X11. The shape of a group is fixed at construction: in every state
    its clients can bring it to it has [count] stacks, and
    [getPanZoomStack(index)] returns, for every index, what it returned
    right after construction; for [i < count] that is the decorated stack
    which reads stack [i] and pushes as [i]. *)
Theorem group_shape_stable count calls g :
  run calls (PlotPanZoomStackGroup count) = Ok g →
  length (stacks g) = count ∧
  length (decoratedStacks g) = count ∧
  (∀ index,
     getPanZoomStack g index =
     getPanZoomStack (PlotPanZoomStackGroup count) index) ∧
  ∀ i, i < count →
    ∃ w, getPanZoomStack g (Z.of_nat i) = Ok (Some w) ∧
         proto w = i ∧ Group.index w = i.
Proof.
  intros Hrun. pose proof (inv_reachable _ _ _ Hrun) as Hinv.
  pose proof Hinv as [Hc Hdec _].
  split; [done|]. split; [by rewrite Hdec, length_fmap, length_seq|].
  split.
  - intros index. unfold getPanZoomStack.
    by rewrite Hdec, decoratedStacks_PlotPanZoomStackGroup.
  - intros i Hi. exists (decorateStack i i).
    split; [by apply (getPanZoomStack_in count)|done].
Qed.

Lemma group_shape_stable_witness :
  length (stacks Sample.pushed_once) = 3 ∧
  getPanZoomStack Sample.pushed_once 2 =
  getPanZoomStack (PlotPanZoomStackGroup 3) 2.
Proof.
  destruct (group_shape_stable 3
              [StackPush 0 [number 1; number 2] [number 3; number 4]]
              Sample.pushed_once eq_refl) as (H1 & _ & H2 & _).
  split; [exact H1|exact (H2 2%Z)].
Defined.

(** X12. A stack through which all the pushes go behaves as a plain
    stack: when every [pushPanZoom] of a sequence of calls is made
    through the decorated stack [j], stack [j] ends as a plain
    [PlotPanZoomStack([], [])] given the same pushes, pops, base changes
    and clears.  So a group of one stack is a plain stack. *)
Theorem originating_stack_is_plain count calls g (j : nat) :
  run calls (PlotPanZoomStackGroup count) = Ok g →
  j < count →
  forallb (pushes_only_through j) calls = true →
  stacks g !! j = Some (plain_after_all calls (Stack.PlotPanZoomStack [] [])).
Proof.
  intros Hrun Hj Hp.
  rewrite (stacks_reachable count calls g j Hrun Hj).
  by rewrite stack_after_plain.
Qed.

Lemma originating_stack_is_plain_witness :
  stacks Sample.pushed_once !! 0 =
  Some [Stack.mkState [] []; Stack.mkState [number 1; number 2] [number 3; number 4]].
Proof.
  exact (originating_stack_is_plain 3
           [StackPush 0 [number 1; number 2] [number 3; number 4]]
           Sample.pushed_once 0 eq_refl ltac:(lia) eq_refl).
Defined.
End composition_properties.
